(** * The workflow execution engine of [WorkflowManager.py]

    A shallow embedding of [WorkflowContext], [WorkflowStep] and [Workflow]
    (the same three classes are repeated verbatim in
    [WorkflowManagerHisto.py]), followed by the properties of the engine.

    Python objects are modelled as follows.
    - A dictionary with string keys is a [gmap string _].
    - A callable is a Rocq function on the state it can reach: the
      context it is handed (or closes over) and an external state [E]
      standing for everything else (devices, module globals, counters).
    - A call either returns a value or raises an instance of Python's
      [Exception] class, which is what the engine's [except Exception]
      clause catches.  The interpreter's system-exiting signals
      ([KeyboardInterrupt], [SystemExit], [GeneratorExit]) derive from
      [BaseException] only and are not values of [PyExc].
    - The mapping passed as [main_params] is an object shared with the
      caller: it lives in a store of mapping objects and the step keeps
      its address.
    - The engine's own actions are recorded, in order, in a trace that the
      callables cannot reach. *)

From stdpp Require Import gmap strings list fin_maps.
From Stdlib Require Import ZArith.

Set Warnings "-clear-no-such-hyp".
Open Scope Z_scope.

(** ** Values and exceptions *)

#[warnings="-register-all"]
Inductive Value : Type :=
| VNone
| VBool (b : bool)
| VInt (n : Z)
| VStr (s : string)
| VList (l : list Value)
| VObj (id : nat).

(** An instance of [Exception]: its class name, [str(e)] and the text
    [traceback.format_exc()] gives for it. *)
Record PyExc : Type := mkExc {
  exc_type : string;
  exc_str : string;
  exc_traceback : string
}.

Inductive Outcome (A : Type) : Type :=
| Normal (a : A)
| Raise (e : PyExc).
Arguments Normal {A} a.
Arguments Raise {A} e.

Definition is_normal {A} (o : Outcome A) : bool :=
  match o with Normal _ => true | Raise _ => false end.

Definition TypeError : PyExc := mkExc "TypeError" "unsupported operand" "".
Definition KeyError (k : string) : PyExc := mkExc "KeyError" k "".
Definition AttributeError : PyExc := mkExc "AttributeError" "append" "".
Definition IndexError : PyExc := mkExc "IndexError" "list index out of range" "".

(** Address of a mapping object in the store. *)
Abbreviation loc := positive.

(** What [retries > 0] and [retries -= 1] can work with: an [int] or a
    [bool] (a subclass of [int]); any other value makes the comparison
    raise [TypeError]. *)
Definition py_int (v : Value) : option Z :=
  match v with
  | VInt n => Some n
  | VBool b => Some (if b then 1 else 0)
  | _ => None
  end.

(** [range(a, b)] *)
Definition py_range (a b : Z) : list Z :=
  (λ k : nat, a + Z.of_nat k) <$> seq 0 (Z.to_nat (b - a)).

(** [l[i]] with Python's negative indices. *)
Definition py_index {A} (l : list A) (i : Z) : Outcome A :=
  let n := Z.of_nat (length l) in
  let j := if decide (0 <= i) then i else n + i in
  if decide (0 <= j) then
    match l !! Z.to_nat j with
    | Some x => Normal x
    | None => Raise IndexError
    end
  else Raise IndexError.

(** [del d[k]] *)
Definition py_del {A} (k : string) (d : gmap string A) : Outcome (gmap string A) :=
  match d !! k with
  | Some _ => Normal (delete k d)
  | None => Raise (KeyError k)
  end.

(** [d[key].append(v)] *)
Definition py_append (key : string) (v : Value) (d : gmap string Value)
  : Outcome (gmap string Value) :=
  match d !! key with
  | Some (VList l) => Normal (<[key := VList (l ++ [v])]> d)
  | Some _ => Raise AttributeError
  | None => Raise (KeyError key)
  end.

(** ** The engine's monad: a state [W] threaded through calls that may
    raise *)

Definition StateExc (W A : Type) : Type := W → Outcome A * W.

Definition ret {W A} (a : A) : StateExc W A := λ w, (Normal a, w).
Definition raise {W A} (e : PyExc) : StateExc W A := λ w, (Raise e, w).
Definition lift {W A} (o : Outcome A) : StateExc W A := λ w, (o, w).
Definition bind {W A B} (m : StateExc W A) (k : A → StateExc W B)
  : StateExc W B :=
  λ w, match m w with
       | (Normal a, w') => k a w'
       | (Raise e, w') => (Raise e, w')
       end.

Notation "x <- m ;; k" := (bind m (λ x, k))
  (at level 100, m at next level, right associativity).
Notation "m ;;; k" := (bind m (λ _, k))
  (at level 100, right associativity).

Section Engine.

(** [Callback] names the listeners stored in a context; [E] is the
    state outside the engine. *)
Context {Callback E : Type}.

(** ** WorkflowContext *)

Record WorkflowContext : Type := mkContext {
  data : gmap string (gmap string Value);
  should_stop : bool;
  current_step_index : Z;
  event_listeners : gmap string (list Callback);
  objects : gmap string Value
}.

(** [WorkflowContext.__init__] *)
Definition WorkflowContext_init : WorkflowContext :=
  mkContext ∅ false 0 ∅ ∅.

Definition set_data d (c : WorkflowContext) : WorkflowContext :=
  mkContext d (should_stop c) (current_step_index c) (event_listeners c) (objects c).
Definition set_should_stop b (c : WorkflowContext) : WorkflowContext :=
  mkContext (data c) b (current_step_index c) (event_listeners c) (objects c).
Definition set_current_step_index i (c : WorkflowContext) : WorkflowContext :=
  mkContext (data c) (should_stop c) i (event_listeners c) (objects c).
Definition set_event_listeners l (c : WorkflowContext) : WorkflowContext :=
  mkContext (data c) (should_stop c) (current_step_index c) l (objects c).
Definition set_objects o (c : WorkflowContext) : WorkflowContext :=
  mkContext (data c) (should_stop c) (current_step_index c) (event_listeners c) o.

Definition set_object (key : string) (obj : Value) (c : WorkflowContext)
  : Outcome WorkflowContext :=
  Normal (set_objects (<[key := obj]> (objects c)) c).

(** [dict.get(key)] gives [None] for a missing key. *)
Definition get_object (key : string) (c : WorkflowContext) : Outcome Value :=
  Normal (default VNone (objects c !! key)).

Definition remove_object (key : string) (c : WorkflowContext)
  : Outcome WorkflowContext :=
  if decide (is_Some (objects c !! key)) then
    match py_del key (objects c) with
    | Normal o => Normal (set_objects o c)
    | Raise e => Raise e
    end
  else Normal c.

Definition store_step_result (step_id : string) (metadata : gmap string Value)
    (c : WorkflowContext) : WorkflowContext :=
  set_data (<[step_id := metadata]> (data c)) c.

Definition get_step_result (step_id : string) (c : WorkflowContext)
  : option (gmap string Value) :=
  data c !! step_id.

Definition update_metadata (step_id key : string) (value : Value)
    (c : WorkflowContext) : WorkflowContext :=
  let d := if decide (is_Some (data c !! step_id)) then data c
           else <[step_id := ∅]> (data c) in
  set_data (<[step_id := <[key := value]> (default ∅ (d !! step_id))]> d) c.

Definition on (event_name : string) (callback : Callback) (c : WorkflowContext)
  : WorkflowContext :=
  set_event_listeners
    (<[event_name := default [] (event_listeners c !! event_name) ++ [callback]]>
       (event_listeners c)) c.

Definition request_stop (c : WorkflowContext) : WorkflowContext :=
  set_should_stop true c.

(** ** States, callables and the engine's trace *)

Record State : Type := mkState {
  context : WorkflowContext;
  ext : E
}.

(** The main operation, called with a mapping unpacked into keyword
    arguments. *)
Definition MainFunc : Type :=
  gmap string Value → State → Outcome Value * State.

(** A hook, called with its parameters, the context and the metadata
    record as keyword arguments: it may change the record it is handed,
    and the context. *)
Definition Hook : Type :=
  gmap string Value → gmap string Value → State
  → Outcome Value * gmap string Value * State.

(** What calling a subscribed callback with a payload does. *)
Variable invoke : Callback → gmap string Value → State → Outcome Value * State.

Inductive Phase : Type := Pre | Post.

Inductive Call : Type :=
| RunStep (i : Z)
| CallHook (ph : Phase) (step_id : string) (k : nat)
| CallMain (step_id : string) (kwargs : gmap string Value) (o : Outcome Value)
| Emit (event_name : string) (payload : gmap string Value)
| Deliver (cb : Callback) (payload : gmap string Value)
| Store (step_id : string) (metadata : gmap string Value).

Record World : Type := mkWorld {
  st : State;
  heap : gmap loc (gmap string Value);
  trace : list Call
}.

Definition M (A : Type) : Type := StateExc World A.

Definition get_context : M WorkflowContext := λ w, (Normal (context (st w)), w).
Definition modify_context (f : WorkflowContext → WorkflowContext) : M unit :=
  λ w, (Normal tt, mkWorld (mkState (f (context (st w))) (ext (st w))) (heap w) (trace w)).
Definition log (c : Call) : M unit :=
  λ w, (Normal tt, mkWorld (st w) (heap w) (trace w ++ [c])).
Definition read_mapping (l : loc) : M (gmap string Value) :=
  λ w, (Normal (default ∅ (heap w !! l)), w).

(** Run a callable on the current state. *)
Definition call {A} (f : State → A * State) : M A :=
  λ w, let '(a, s) := f (st w) in (Normal a, mkWorld s (heap w) (trace w)).

(** [WorkflowContext.emit_event]: the callbacks called are those
    subscribed to the event when it is emitted, in the order of the
    list. The interpreter's loop walks the list object itself and so
    also reaches a callback subscribed to the event while it is being
    delivered; [deliver_live] below is that loop, and the two agree
    whenever the callbacks called leave the list of the event alone
    (section [LiveDeliveryFacts]). *)
Fixpoint deliver (cbs : list Callback) (payload : gmap string Value) : M unit :=
  match cbs with
  | [] => ret tt
  | cb :: cbs' =>
      log (Deliver cb payload) ;;;
      o <- call (invoke cb payload) ;;
      _ <- lift o ;;
      deliver cbs' payload
  end.

Definition emit_event (event_name : string) (payload : gmap string Value) : M unit :=
  c <- get_context ;;
  log (Emit event_name payload) ;;;
  deliver (default [] (event_listeners c !! event_name)) payload.

(** ** WorkflowStep *)

Record WorkflowStep : Type := mkStep {
  name : string;
  main_func : MainFunc;
  main_params : loc;
  step_id : string;
  pre_funcs : list Hook;
  pre_params : gmap string Value;
  post_funcs : list Hook;
  post_params : gmap string Value;
  max_retries : Value
}.

(** [WorkflowStep.__init__]: [main_params] is kept by reference and
    [pop] removes the key from the caller's mapping object. *)
Definition WorkflowStep_init (name : string) (main_func : MainFunc)
    (main_params : loc) (step_id : string)
    (pre_funcs : option (list Hook)) (pre_params : option (gmap string Value))
    (post_funcs : option (list Hook)) (post_params : option (gmap string Value))
    (h : gmap loc (gmap string Value))
  : WorkflowStep * gmap loc (gmap string Value) :=
  let popped := default (VInt 0) (default ∅ (h !! main_params) !! "max_retries") in
  (mkStep name main_func main_params step_id
     (default [] pre_funcs) (default ∅ pre_params)
     (default [] post_funcs) (default ∅ post_params)
     popped,
   alter (delete "max_retries") main_params h).

Definition started_payload (self : WorkflowStep) : gmap string Value :=
  <["status" := VStr "started"]> (<["step_id" := VStr (step_id self)]>
    (<["name" := VStr (name self)]> ∅)).
Definition retrying_payload (self : WorkflowStep) : gmap string Value :=
  <["status" := VStr "retrying"]> (<["step_id" := VStr (step_id self)]> ∅).
Definition failed_payload (self : WorkflowStep) : gmap string Value :=
  <["status" := VStr "failed"]> (<["step_id" := VStr (step_id self)]> ∅).
Definition completed_payload (self : WorkflowStep) : gmap string Value :=
  <["status" := VStr "completed"]> (<["step_id" := VStr (step_id self)]>
    (<["name" := VStr (name self)]> ∅)).

(** [{"step_id": self.step_id, **self.main_params}]: a later key wins. *)
Definition initial_metadata (self : WorkflowStep) (params : gmap string Value)
  : gmap string Value :=
  params ∪ {["step_id" := VStr (step_id self)]}.

(** [{**params, "context": context, "metadata": metadata}]: the two
    engine arguments override keys of the same name in [params]. *)
Definition merged_params (params : gmap string Value) : gmap string Value :=
  delete "metadata" (delete "context" params).

(** The pre- and post-hook loops. [None] stands for the [return None]
    taken when the stop flag is found set after a hook. *)
Fixpoint run_hooks (ph : Phase) (key : string) (self : WorkflowStep)
    (params : gmap string Value) (fs : list Hook) (k : nat)
    (metadata : gmap string Value) : M (option (gmap string Value)) :=
  match fs with
  | [] => ret (Some metadata)
  | f :: fs' =>
      log (CallHook ph (step_id self) k) ;;;
      r <- call (λ s, let '(o, md, s') := f (merged_params params) metadata s
                     in ((o, md), s')) ;;
      result <- lift r.1 ;;
      metadata <- lift (py_append key result r.2) ;;
      c <- get_context ;;
      if should_stop c then ret None
      else run_hooks ph key self params fs' (S k) metadata
  end.

(** The [while True] loop around the main operation. [retries] counts
    down: [retries > 0] is [retries = S _] and [retries -= 1] takes the
    predecessor. [None] stands for the [return None] of the failure
    path, [Some metadata] for [break]. *)
Definition call_main (self : WorkflowStep) : M (Outcome Value) :=
  kwargs <- read_mapping (main_params self) ;;
  o <- call (main_func self kwargs) ;;
  log (CallMain (step_id self) kwargs o) ;;;
  ret o.

Definition record_error (e : PyExc) (metadata : gmap string Value)
  : gmap string Value :=
  <["traceback" := VStr (exc_traceback e)]>
    (<["error" := VStr (exc_str e)]> metadata).

Definition fail_step (self : WorkflowStep) (metadata : gmap string Value)
  : M unit :=
  modify_context (set_should_stop true) ;;;
  log (Store (step_id self) metadata) ;;;
  modify_context (store_step_result (step_id self) metadata) ;;;
  emit_event "progress" (failed_payload self).

Fixpoint run_main (self : WorkflowStep) (retries : nat)
    (metadata : gmap string Value) : M (option (gmap string Value)) :=
  o <- call_main self ;;
  match o with
  | Normal result => ret (Some (<["result" := result]> metadata))
  | Raise e =>
      let metadata := record_error e metadata in
      match retries with
      | S retries' =>
          emit_event "progress" (retrying_payload self) ;;;
          run_main self retries' metadata
      | O =>
          fail_step self metadata ;;;
          ret None
      end
  end.

(** The same loop when [max_retries] is not a number: the first failure
    reaches [retries > 0], which raises [TypeError] inside the handler. *)
Definition run_main_untyped (self : WorkflowStep)
    (metadata : gmap string Value) : M (option (gmap string Value)) :=
  o <- call_main self ;;
  match o with
  | Normal result => ret (Some (<["result" := result]> metadata))
  | Raise e => raise TypeError
  end.

Definition main_phase (self : WorkflowStep) (metadata : gmap string Value)
  : M (option (gmap string Value)) :=
  match py_int (max_retries self) with
  | Some retries => run_main self (Z.to_nat retries) metadata
  | None => run_main_untyped self metadata
  end.

(** From the main operation to the end of [run]. *)
Definition run_from_main (self : WorkflowStep) (metadata : gmap string Value)
  : M Value :=
  m <- main_phase self metadata ;;
  match m with
  | None => ret VNone
  | Some metadata =>
      let metadata := <["post_result" := VList []]> metadata in
      p <- run_hooks Post "post_result" self (post_params self)
            (post_funcs self) 0 metadata ;;
      match p with
      | None => ret VNone
      | Some metadata =>
          log (Store (step_id self) metadata) ;;;
          modify_context (store_step_result (step_id self) metadata) ;;;
          emit_event "progress" (completed_payload self) ;;;
          match metadata !! "result" with
          | Some v => ret v
          | None => raise (KeyError "result")
          end
      end
  end.

(** [WorkflowStep.run] *)
Definition WorkflowStep_run (self : WorkflowStep) : M Value :=
  c <- get_context ;;
  if should_stop c then ret VNone
  else
    params <- read_mapping (main_params self) ;;
    let metadata := initial_metadata self params in
    emit_event "progress" (started_payload self) ;;;
    let metadata := <["pre_result" := VList []]> metadata in
    p <- run_hooks Pre "pre_result" self (pre_params self)
          (pre_funcs self) 0 metadata ;;
    match p with
    | None => ret VNone
    | Some metadata => run_from_main self metadata
    end.

(** ** Workflow *)

Fixpoint run_loop (steps : list WorkflowStep) (indices : list Z) : M unit :=
  match indices with
  | [] => ret tt
  | i :: rest =>
      step <- lift (py_index steps i) ;;
      c <- get_context ;;
      if should_stop c then ret tt
      else
        log (RunStep i) ;;;
        WorkflowStep_run step ;;;
        modify_context (set_current_step_index (i + 1)) ;;;
        run_loop steps rest
  end.

(** [Workflow.run] on the context held by the world. *)
Definition Workflow_run (steps : list WorkflowStep) : M unit :=
  c <- get_context ;;
  run_loop steps (py_range (current_step_index c) (Z.of_nat (length steps))).

(** [Workflow.run(context)] with its optional argument: [None] stands
    for a new context. *)
Definition Workflow_run_opt (steps : list WorkflowStep)
    (context : option WorkflowContext) (e : E) (h : gmap loc (gmap string Value))
  : Outcome unit * World :=
  Workflow_run steps
    (mkWorld (mkState (default WorkflowContext_init context) e) h []).

End Engine.

(** ** Reading a trace *)

Section Traces.
Context {Callback : Type}.
Implicit Types t : list (@Call Callback).

Definition step_runs t : list Z :=
  omap (λ c, match c with RunStep i => Some i | _ => None end) t.
Definition main_calls t : list (string * gmap string Value * Outcome Value) :=
  omap (λ c, match c with CallMain s kw o => Some (s, kw, o) | _ => None end) t.
Definition main_outcomes t : list (Outcome Value) := (λ x, x.2) <$> main_calls t.
Definition hook_calls t : list (Phase * string * nat) :=
  omap (λ c, match c with CallHook ph s k => Some (ph, s, k) | _ => None end) t.
Definition emitted t : list (string * gmap string Value) :=
  omap (λ c, match c with Emit n p => Some (n, p) | _ => None end) t.
Definition statuses t : list (option Value) :=
  (λ x, x.2 !! "status") <$> emitted t.
Definition stores t : list (string * gmap string Value) :=
  omap (λ c, match c with Store s md => Some (s, md) | _ => None end) t.
Definition notifications t : list (@Call Callback) :=
  omap (λ c, match c with Emit _ _ | Deliver _ _ => Some c | _ => None end) t.

(** What one emission leaves in the trace when [cbs] are subscribed. *)
Definition emission (cbs : list Callback) (event_name : string)
    (payload : gmap string Value) : list (@Call Callback) :=
  Emit event_name payload :: ((λ cb, Deliver cb payload) <$> cbs).

End Traces.

Definition subscribed {Callback E} (event_name : string) (s : @State Callback E)
  : list Callback :=
  default [] (event_listeners (context s) !! event_name).

Section TraceDefs.
Context {Callback E : Type}.

(** [m] only appends to the trace, entries satisfying [Q], and leaves the
    store of mappings [h] alone, whatever the callables do. *)
Definition extends (h : gmap loc (gmap string Value)) (Q : @Call Callback → Prop)
    {A} (m : @M Callback E A) : Prop :=
  ∀ w, heap w = h →
    ∃ t, trace (m w).2 = trace w ++ t ∧ heap (m w).2 = h ∧ Forall Q t.

Definition not_RunStep (c : @Call Callback) : Prop :=
  match c with RunStep _ => False | _ => True end.

End TraceDefs.

Arguments extends {Callback} E h Q {A} m.

(** ** The loop of [emit_event] over the list object *)

Section LiveDelivery.
Context {Callback E : Type}.
Variable invoke : Callback → gmap string Value → @State Callback E
                  → Outcome Value * @State Callback E.

(** [for cb in self.event_listeners.get(event_name, [])] walks the list
    object of the event by index, so it also reaches what a callback
    appends to that list while the event is delivered (a change of the
    list is taken to be made in place, as [on] makes it). Such a loop
    need not end: [fuel] bounds the number of callbacks called, and
    [None] is the answer when it runs out. *)
Fixpoint deliver_live (fuel : nat) (event_name : string) (i : nat)
    (payload : gmap string Value) (w : @World Callback E)
  : option (Outcome unit * @World Callback E) :=
  match fuel with
  | O => None
  | S fuel' =>
      match subscribed event_name (st w) !! i with
      | None => Some (Normal tt, w)
      | Some cb =>
          let r := invoke cb payload (st w) in
          let w' := mkWorld r.2 (heap w) (trace w ++ [Deliver cb payload]) in
          match r.1 with
          | Normal _ => deliver_live fuel' event_name (S i) payload w'
          | Raise e => Some (Raise e, w')
          end
      end
  end.

Definition emit_event_live (fuel : nat) (event_name : string)
    (payload : gmap string Value) (w : @World Callback E)
  : option (Outcome unit * @World Callback E) :=
  deliver_live fuel event_name 0 payload
    (mkWorld (st w) (heap w) (trace w ++ [Emit event_name payload])).

End LiveDelivery.

(** ** Callables that stay within a frame *)

Definition reserved_keys : list string :=
  ["step_id"; "pre_result"; "result"; "error"; "traceback"; "post_result"].

(** A hook keeps the record's engine-managed fields as they are. *)
Definition keeps (md md' : gmap string Value) : Prop :=
  ∀ k, k ∈ reserved_keys → md' !! k = md !! k.

Section Callables.
Context {Callback E : Type}.
Variable invoke : Callback → gmap string Value → @State Callback E
                  → Outcome Value * @State Callback E.
(** [R s s'] bounds what a call may turn state [s] into. *)
Variable R : relation (@State Callback E).

Definition listeners_ok : Prop :=
  ∀ cb p s, ∃ v s', invoke cb p s = (Normal v, s') ∧ R s s'.

(** The hook, called with [params], returns normally on every record and
    state, within [R], and keeps the record's engine-managed fields. *)
Definition hook_ok (params : gmap string Value) (f : @Hook Callback E) : Prop :=
  ∀ md s, ∃ v md' s',
    f (merged_params params) md s = (Normal v, md', s') ∧ R s s' ∧ keeps md md'.

(** The main operation, called with [kw], stays within [R] whether it
    returns or raises. *)
Definition main_framed (f : @MainFunc Callback E) (kw : gmap string Value) : Prop :=
  ∀ s, R s (f kw s).2.

End Callables.

Section MainLoop.
Context {Callback E : Type}.
Variable invoke : Callback → gmap string Value → @State Callback E
                  → Outcome Value * @State Callback E.
Variable self : @WorkflowStep Callback E.

(** A failed attempt [x = (e, s)]: the main operation raised [e] and
    left state [s]; the engine then announced the retry. *)
Definition retry_block (kw : gmap string Value) (x : PyExc * @State Callback E)
  : list (@Call Callback) :=
  CallMain (step_id self) kw (Raise x.1)
    :: emission (subscribed "progress" x.2) "progress" (retrying_payload self).

Definition errors_recorded (md : gmap string Value)
    (fails : list (PyExc * @State Callback E)) : gmap string Value :=
  foldl (λ m x, record_error x.1 m) md fails.

(** The parameter bindings of the step as the store [h] has them. *)
Definition bound_params (h : gmap loc (gmap string Value)) : gmap string Value :=
  default ∅ (h !! main_params self).

Definition failure_of (kw : gmap string Value) (x : PyExc * @State Callback E) : Prop :=
  ∃ s0, main_func self kw s0 = (Raise x.1, x.2).

Definition success_of (kw : gmap string Value) (v : Value) : Prop :=
  ∃ s0 s, main_func self kw s0 = (Normal v, s).

(** A retry budget that is not a number is harmless as long as the main
    operation, called with [kw], does not fail. *)
Definition budget_ok (kw : gmap string Value) : Prop :=
  py_int (max_retries self) = None →
  ∀ s, ∃ v s', main_func self kw s = (Normal v, s').

(** The state the failure path leaves before it emits [failed]. *)
Definition failed_state (md : gmap string Value) (s : @State Callback E)
  : @State Callback E :=
  mkState (store_step_result (step_id self) md (set_should_stop true (context s)))
          (ext s).

Definition stored_state (md : gmap string Value) (s : @State Callback E)
  : @State Callback E :=
  mkState (store_step_result (step_id self) md (context s)) (ext s).

End MainLoop.

(** ** What one run of a step looks like *)

Section StepOutcomes.
Context {Callback E : Type}.
Variable R : relation (@State Callback E).
Variable self : @WorkflowStep Callback E.

Definition hook_trace (ph : Phase) (n : nat) : list (@Call Callback) :=
  (λ j, CallHook ph (step_id self) j) <$> seq 0 n.

(** Fields of the persisted record that hooks leave alone. *)
Definition agree_on_core (md md' : gmap string Value) : Prop :=
  ∀ k, k ∈ ["step_id"; "result"; "error"; "traceback"] → md !! k = md' !! k.

(** The run went through every phase and reported [completed]. *)
Definition completed_run (w : @World Callback E) (o : Outcome Value)
    (w' : @World Callback E) : Prop :=
  let kw := bound_params self (heap w) in
  ∃ fails v md s1 pre post,
    o = Normal v ∧ heap w' = heap w
    ∧ Forall (λ x, R (st w) x.2 ∧ failure_of self kw x) fails
    ∧ (∀ n, py_int (max_retries self) = Some n → (length fails ≤ Z.to_nat n)%nat)
    ∧ success_of self kw v
    ∧ R (st w) s1 ∧ R (stored_state self md s1) (st w')
    ∧ agree_on_core md
        (<["result" := v]> (errors_recorded (initial_metadata self kw) fails))
    ∧ md !! "pre_result" = Some (VList pre) ∧ length pre = length (pre_funcs self)
    ∧ md !! "post_result" = Some (VList post) ∧ length post = length (post_funcs self)
    ∧ trace w' = trace w
        ++ emission (subscribed "progress" (st w)) "progress" (started_payload self)
        ++ hook_trace Pre (length (pre_funcs self))
        ++ flat_map (retry_block self kw) fails
        ++ [CallMain (step_id self) kw (Normal v)]
        ++ hook_trace Post (length (post_funcs self))
        ++ [Store (step_id self) md]
        ++ emission (subscribed "progress" (stored_state self md s1))
             "progress" (completed_payload self).

(** The main operation used up its retries and the run reported
    [failed]. *)
Definition failed_run (w : @World Callback E) (o : Outcome Value)
    (w' : @World Callback E) : Prop :=
  let kw := bound_params self (heap w) in
  ∃ fails e md s1 pre,
    o = Normal VNone ∧ heap w' = heap w
    ∧ Forall (λ x, R (st w) x.2 ∧ failure_of self kw x) fails
    ∧ (∀ n, py_int (max_retries self) = Some n → length fails = Z.to_nat n)
    ∧ failure_of self kw (e, s1)
    ∧ R (st w) s1 ∧ R (failed_state self md s1) (st w')
    ∧ agree_on_core md
        (record_error e (errors_recorded (initial_metadata self kw) fails))
    ∧ md !! "pre_result" = Some (VList pre) ∧ length pre = length (pre_funcs self)
    ∧ trace w' = trace w
        ++ emission (subscribed "progress" (st w)) "progress" (started_payload self)
        ++ hook_trace Pre (length (pre_funcs self))
        ++ flat_map (retry_block self kw) fails
        ++ [CallMain (step_id self) kw (Raise e)] ++ [Store (step_id self) md]
        ++ emission (subscribed "progress" (failed_state self md s1))
             "progress" (failed_payload self).

End StepOutcomes.

(** ** Steps that leave the run state to the engine *)

Section FrameDefs.
Context {Callback E : Type}.

(** A call within [frame ids] leaves the stop flag as it found it and
    adds results, if any, only under the identifiers [ids]. *)
Definition frame (ids : gset string) (s s' : @State Callback E) : Prop :=
  should_stop (context s') = should_stop (context s)
  ∧ dom (data (context s)) ⊆ dom (data (context s'))
  ∧ dom (data (context s')) ⊆ dom (data (context s)) ∪ ids.

(** Hooks and main operation of a step write results, if at all, under
    the step's own identifier, and do not touch the stop flag. *)
Definition step_ok (h : gmap loc (gmap string Value))
    (self : @WorkflowStep Callback E) : Prop :=
  Forall (hook_ok (frame {[step_id self]}) (pre_params self)) (pre_funcs self)
  ∧ Forall (hook_ok (frame {[step_id self]}) (post_params self)) (post_funcs self)
  ∧ main_framed (frame {[step_id self]}) (main_func self) (bound_params self h)
  ∧ budget_ok self (bound_params self h).

(** The main operation, called with the step's parameters, returns on
    every state. *)
Definition main_never_fails (h : gmap loc (gmap string Value))
    (self : @WorkflowStep Callback E) : Prop :=
  ∀ s, ∃ v s', main_func self (bound_params self h) s = (Normal v, s').

(** The main operation, called with the step's parameters, raises on
    every state. *)
Definition main_always_fails (h : gmap loc (gmap string Value))
    (self : @WorkflowStep Callback E) : Prop :=
  ∀ s, ∃ e s', main_func self (bound_params self h) s = (Raise e, s').

End FrameDefs.

(** ** Frames used by the step-level properties *)

Section MoreFrames.
Context {Callback E : Type}.

(** The call makes no stop request (and does not clear one). *)
Definition keeps_flag (s s' : @State Callback E) : Prop :=
  should_stop (context s') = should_stop (context s).

(** As [keeps_flag], and the listeners of [progress] stay as they are. *)
Definition quiet (s s' : @State Callback E) : Prop :=
  should_stop (context s') = should_stop (context s)
  ∧ subscribed "progress" s' = subscribed "progress" s.

(** No constraint: the call may do anything to the state. *)
Definition anything (s s' : @State Callback E) : Prop := True.

(** The call leaves the results map as it is. *)
Definition keeps_data (s s' : @State Callback E) : Prop :=
  data (context s') = data (context s).

(** The call makes no stop request and leaves the results map as it is. *)
Definition keeps_results (s s' : @State Callback E) : Prop :=
  should_stop (context s') = should_stop (context s)
  ∧ data (context s') = data (context s).

End MoreFrames.

(** ** Vocabulary of the workflow-level properties *)

Section WorkflowDefs.
Context {Callback E : Type}.

(** A context nothing has run on yet. *)
Definition fresh_context (c : @WorkflowContext Callback) : Prop :=
  data c = ∅ ∧ should_stop c = false ∧ current_step_index c = 0.

(** An index [steps[i]] accepts without wrapping around. *)
Definition in_range (steps : list (@WorkflowStep Callback E)) (i : Z) : Prop :=
  0 ≤ i < Z.of_nat (length steps).

(** The state [Workflow.run] leaves after a step returned in [w]. *)
Definition advance (i : Z) (w : @World Callback E) : @World Callback E :=
  mkWorld (mkState (set_current_step_index (i + 1) (context (st w))) (ext (st w)))
          (heap w) (trace w).

(** The [error] and [traceback] fields after the failed attempts [errs]
    on a record that started as [md0]. *)
Definition last_error (errs : list PyExc) (md0 : gmap string Value)
  : option Value * option Value :=
  match last errs with
  | Some e => (Some (VStr (exc_str e)), Some (VStr (exc_traceback e)))
  | None => (md0 !! "error", md0 !! "traceback")
  end.

(** A hook that raises [e] whatever it is called with. *)
Definition hook_raises (params : gmap string Value) (f : @Hook Callback E)
    (e : PyExc) : Prop :=
  ∀ md s, ∃ md' s', f (merged_params params) md s = (Raise e, md', s').

(** A hook that returns with a stop request made, whatever it is called
    with, and keeps the record's engine-managed fields. *)
Definition hook_stops (params : gmap string Value) (f : @Hook Callback E) : Prop :=
  ∀ md s, ∃ v md' s',
    f (merged_params params) md s = (Normal v, md', s')
    ∧ should_stop (context s') = true ∧ keeps md md'.

(** Hooks and retry budget of a step give the engine nothing to raise. *)
Definition step_hooks_return (h : gmap loc (gmap string Value))
    (self : @WorkflowStep Callback E) : Prop :=
  Forall (hook_ok anything (pre_params self)) (pre_funcs self)
  ∧ Forall (hook_ok anything (post_params self)) (post_funcs self)
  ∧ budget_ok self (bound_params self h).

(** Hooks and main operation of a step return where the engine does not
    catch and make no stop request; the retry budget is a number, unless
    the main operation cannot fail. *)
Definition step_keeps_flag (h : gmap loc (gmap string Value))
    (self : @WorkflowStep Callback E) : Prop :=
  Forall (hook_ok keeps_flag (pre_params self)) (pre_funcs self)
  ∧ Forall (hook_ok keeps_flag (post_params self)) (post_funcs self)
  ∧ main_framed keeps_flag (main_func self) (bound_params self h)
  ∧ budget_ok self (bound_params self h).

Definition no_max_retries_arg (c : @Call Callback) : Prop :=
  match c with
  | CallMain _ kwargs _ => kwargs !! "max_retries" = None
  | _ => True
  end.

End WorkflowDefs.

(** ** The example device functions and workflows of the repository

    Callbacks are named by numbers and the external state is a counter
    of calls, which lets an operation fail on its first call only. *)

Module Demo.

Definition DState : Type := @State nat nat.
Definition DWorld : Type := @World nat nat.

(** [move_stage(x, y, z=0.0)] returns the position it is given. A call
    that lacks [x] or [y], or has another keyword, is a [TypeError]. *)
Definition move_stage : @MainFunc nat nat := λ kw s,
  match kw !! "x", kw !! "y" with
  | Some x, Some y =>
      if decide (dom kw ⊆ {["x"; "y"; "z"]})
      then (Normal (VList [x; y; default (VInt 0) (kw !! "z")]), s)
      else (Raise TypeError, s)
  | _, _ => (Raise TypeError, s)
  end.

(** A hook declared as [f(context, metadata)] and called by keywords:
    any keyword besides these two is a [TypeError]. *)
Definition hook_of
    (body : gmap string Value → DState → Outcome Value * gmap string Value * DState)
  : @Hook nat nat := λ params md s,
  if decide (params = ∅) then body md s else (Raise TypeError, md, s).

(** [autofocus] sets a flag of its own in the metadata record and
    returns [None]. *)
Definition autofocus : @Hook nat nat :=
  hook_of (λ md s, (Normal VNone, <["autofocus_done" := VBool true]> md, s)).

(** [process_data] and [save_frame] print [metadata['step_id']], a
    [KeyError] on a record without that field, before they set their
    flag. *)
Definition set_flag (key : string) : @Hook nat nat :=
  hook_of (λ md s,
    match md !! "step_id" with
    | Some _ => (Normal VNone, <[key := VBool true]> md, s)
    | None => (Raise (KeyError "step_id"), md, s)
    end).
Definition process_data : @Hook nat nat := set_flag "processed".
Definition save_frame : @Hook nat nat := set_flag "frame_saved".

(** [wait_time(seconds, context, metadata)]: [time.sleep] takes a number
    that is not negative; the hook then notes the time waited. *)
Definition wait_time : @Hook nat nat := λ params md s,
  if decide (dom params = {["seconds"]}) then
    match py_int (default VNone (params !! "seconds")) with
    | Some n =>
        if decide (0 ≤ n)
        then (Normal VNone, <["waited" := default VNone (params !! "seconds")]> md, s)
        else (Raise (mkExc "ValueError" "sleep length must be non-negative" ""), md, s)
    | None => (Raise TypeError, md, s)
    end
  else (Raise TypeError, md, s).

(** [a == b] on the values of this model; [True == 1] and [False == 0]
    hold, and two opaque objects are equal when they are the same. *)
Fixpoint value_is (a b : Value) : bool :=
  match a, b with
  | VNone, VNone => true
  | VStr x, VStr y => bool_decide (x = y)
  | VObj i, VObj j => bool_decide (i = j)
  | VList xs, VList ys =>
      (fix all_equal (xs ys : list Value) : bool :=
         match xs, ys with
         | [], [] => true
         | x :: xs', y :: ys' => value_is x y && all_equal xs' ys'
         | _, _ => false
         end) xs ys
  | _, _ =>
      match py_int a, py_int b with
      | Some x, Some y => bool_decide (x = y)
      | _, _ => false
      end
  end.

(** [xs.index(v)] *)
Fixpoint index_of (v : Value) (xs : list Value) : option nat :=
  match xs with
  | [] => None
  | x :: xs' => if value_is x v then Some 0%nat else S <$> index_of v xs'
  end.

(** [update_tile_indices] of [WorkflowManagerHisto.start_histo_scan],
    closed over the scan positions [xs] and [ys]: it notes the tile
    indices in the record and the last ones under the pseudo-identifier
    ["global"] of the results. *)
Definition update_tile_indices (xs ys : list Value) : @Hook nat nat :=
  hook_of (λ md s,
    match md !! "x" with
    | None => (Raise (KeyError "x"), md, s)
    | Some x_val =>
        match md !! "y" with
        | None => (Raise (KeyError "y"), md, s)
        | Some y_val =>
            match index_of x_val xs with
            | None => (Raise (mkExc "ValueError" "not in list" ""), md, s)
            | Some col =>
                match index_of y_val ys with
                | None => (Raise (mkExc "ValueError" "not in list" ""), md, s)
                | Some row =>
                    let col := VInt (Z.of_nat col) in
                    let row := VInt (Z.of_nat row) in
                    (Normal VNone,
                     <["IndexY" := row]> (<["IndexX" := col]> md),
                     mkState (update_metadata "global" "last_row" row
                                (update_metadata "global" "last_col" col (context s)))
                             (ext s))
                end
            end
        end
    end).

(** A main operation that raises on every call. *)
Definition device_error : PyExc :=
  mkExc "RuntimeError" "device not responding" "Traceback (most recent call last)".
Definition faulty_device : @MainFunc nat nat := λ kw s, (Raise device_error, s).

(** A main operation that raises on its first call only. *)
Definition flaky_acquire : @MainFunc nat nat := λ kw s,
  match ext s with
  | O => (Raise device_error, mkState (context s) 1%nat)
  | S _ => (Normal (VObj 0), s)
  end.

(** A hook that raises. *)
Definition hook_error : PyExc := mkExc "ValueError" "bad tile" "".
Definition broken_hook : @Hook nat nat := λ params md s, (Raise hook_error, md, s).

(** A hook that calls [context.request_stop()]. *)
Definition stop_hook : @Hook nat nat :=
  hook_of (λ md s, (Normal VNone, md, mkState (request_stop (context s)) (ext s))).

(** [progress_listener] prints the event and changes nothing. *)
Definition print_listener (cb : nat) (payload : gmap string Value) (s : DState)
  : Outcome Value * DState := (Normal VNone, s).

(** Listener 1 calls [request_stop] when it hears of a retry; the other
    listeners print. *)
Definition is_retrying (payload : gmap string Value) : bool :=
  match payload !! "status" with
  | Some status => value_is status (VStr "retrying")
  | None => false
  end.

Definition stop_on_retry (cb : nat) (payload : gmap string Value) (s : DState)
  : Outcome Value * DState :=
  if bool_decide (cb = 1%nat) && is_retrying payload
  then (Normal VNone, mkState (request_stop (context s)) (ext s))
  else (Normal VNone, s).

(** Listener 0 subscribes listener 1 to [progress] when it is called;
    the other listeners print. *)
Definition recruiting (cb : nat) (payload : gmap string Value) (s : DState)
  : Outcome Value * DState :=
  match cb with
  | O => (Normal VNone, mkState (on "progress" 1%nat (context s)) (ext s))
  | S _ => (Normal VNone, s)
  end.

(** Every listener subscribes itself once more when it is called. *)
Definition self_subscribing (cb : nat) (payload : gmap string Value) (s : DState)
  : Outcome Value * DState :=
  (Normal VNone, mkState (on "progress" cb (context s)) (ext s)).
(** Listener 1 raises; the other listeners print. *)
Definition listener_error : PyExc := mkExc "OSError" "display closed" "".
Definition raising_listener (cb : nat) (payload : gmap string Value) (s : DState)
  : Outcome Value * DState :=
  if bool_decide (cb = 1%nat) then (Raise listener_error, s) else (Normal VNone, s).

Definition position (x y z : Z) : gmap string Value :=
  <["x" := VInt x]> (<["y" := VInt y]> (<["z" := VInt z]> ∅)).

(** The mapping objects the callers pass as [main_params]. *)
Definition mappings : gmap loc (gmap string Value) :=
  <[1%positive := position 0 0 0]>
  (<[2%positive := <["max_retries" := VInt 1]> ∅]>
  (<[3%positive := position 0 0 5]>
  (<[4%positive := <["max_retries" := VInt 2]> (<["channel" := VStr "GFP"]> ∅)]> ∅))).

Definition construct (steps : list (gmap loc (gmap string Value)
                                    → @WorkflowStep nat nat * gmap loc (gmap string Value)))
    (h : gmap loc (gmap string Value))
  : list (@WorkflowStep nat nat) * gmap loc (gmap string Value) :=
  foldl (λ acc mk, let '(s, h') := mk acc.2 in (acc.1 ++ [s], h')) ([], h) steps.

(** "Move XY" with autofocus before and processing after, a step on a
    device that does not respond (one retry), and "Move Z". *)
Definition plain_workflow :=
  construct
    [ WorkflowStep_init "Move XY" move_stage 1%positive "a"
        (Some [autofocus]) None (Some [process_data; save_frame]) None;
      WorkflowStep_init "Acquire" faulty_device 2%positive "b" None None None None;
      WorkflowStep_init "Move Z" move_stage 3%positive "c" None None None None ]
    mappings.

(** The first two steps of the tiled scan, each with
    [update_tile_indices] as post-hook, then the faulty device. *)
Definition scan_workflow :=
  construct
    [ WorkflowStep_init "Move XY" move_stage 1%positive "0"
        None None (Some [update_tile_indices [VInt 0] [VInt 0]]) None;
      WorkflowStep_init "Move Z" move_stage 3%positive "1"
        None None (Some [update_tile_indices [VInt 0] [VInt 0]]) None;
      WorkflowStep_init "Acquire" faulty_device 2%positive "2" None None None None ]
    mappings.

(** As [plain_workflow], with hooks that return on every record:
    "Move XY" focuses before the move and waits a second after it. *)
Definition timed_workflow :=
  construct
    [ WorkflowStep_init "Move XY" move_stage 1%positive "a"
        (Some [autofocus]) None (Some [wait_time]) (Some {["seconds" := VInt 1]});
      WorkflowStep_init "Acquire" faulty_device 2%positive "b" None None None None;
      WorkflowStep_init "Move Z" move_stage 3%positive "c" None None None None ]
    mappings.

(** The two moves of [timed_workflow] alone. *)
Definition timed_moves :=
  construct
    [ WorkflowStep_init "Move XY" move_stage 1%positive "a"
        (Some [autofocus]) None (Some [wait_time]) (Some {["seconds" := VInt 1]});
      WorkflowStep_init "Move Z" move_stage 3%positive "c" None None None None ]
    mappings.

(** The two moves of [scan_workflow] alone. *)
Definition scan_moves :=
  construct
    [ WorkflowStep_init "Move XY" move_stage 1%positive "0"
        None None (Some [update_tile_indices [VInt 0] [VInt 0]]) None;
      WorkflowStep_init "Move Z" move_stage 3%positive "1"
        None None (Some [update_tile_indices [VInt 0] [VInt 0]]) None ]
    mappings.

(** A step whose second pre-hook raises. *)
Definition broken_workflow :=
  construct
    [ WorkflowStep_init "Move XY" move_stage 1%positive "a"
        (Some [autofocus; broken_hook]) None None None ]
    mappings.

(** "Move Z", then the step whose second pre-hook raises. *)
Definition late_broken_workflow :=
  construct
    [ WorkflowStep_init "Move Z" move_stage 3%positive "c" None None None None;
      WorkflowStep_init "Move XY" move_stage 1%positive "a"
        (Some [autofocus; broken_hook]) None None None ]
    mappings.

(** A step whose main operation fails once and then succeeds, with one
    retry allowed, followed by "Move Z". *)
Definition flaky_workflow :=
  construct
    [ WorkflowStep_init "Acquire" flaky_acquire 2%positive "a" None None None None;
      WorkflowStep_init "Move Z" move_stage 3%positive "c" None None None None ]
    mappings.

(** A context as [WorkflowContext()] makes it, with listeners 0 and 1
    subscribed to [progress]. *)
Definition listening : @WorkflowContext nat :=
  on "progress" 1%nat (on "progress" 0%nat WorkflowContext_init).

Definition world (c : @WorkflowContext nat) (h : gmap loc (gmap string Value)) : DWorld :=
  mkWorld (mkState c 0%nat) h [].

(** The steps the constructions above produce. *)
Definition step_a : @WorkflowStep nat nat :=
  mkStep "Move XY" move_stage 1%positive "a" [autofocus] ∅
         [wait_time] {["seconds" := VInt 1]} (VInt 0).
Definition step_b : @WorkflowStep nat nat :=
  mkStep "Acquire" faulty_device 2%positive "b" [] ∅ [] ∅ (VInt 1).
Definition step_c : @WorkflowStep nat nat :=
  mkStep "Move Z" move_stage 3%positive "c" [] ∅ [] ∅ (VInt 0).
Definition step_flaky : @WorkflowStep nat nat :=
  mkStep "Acquire" flaky_acquire 2%positive "a" [] ∅ [] ∅ (VInt 1).

(** The store once the steps are constructed: [max_retries] is gone
    from mapping 2. *)
Definition popped : gmap loc (gmap string Value) :=
  <[2%positive := ∅]> mappings.

(** "Move XY" with a pre-hook that requests a stop after the focus, and
    "Move Z" with a post-hook that requests one. *)
Definition step_halting : @WorkflowStep nat nat :=
  mkStep "Move XY" move_stage 1%positive "a" [autofocus; stop_hook; autofocus] ∅
         [] ∅ (VInt 0).
Definition step_halting_late : @WorkflowStep nat nat :=
  mkStep "Move Z" move_stage 3%positive "c" [autofocus] ∅
         [stop_hook; autofocus] ∅ (VInt 0).

(** The faulty device with [max_retries] bound to the string ["3"]. *)
Definition step_untyped : @WorkflowStep nat nat :=
  mkStep "Acquire" faulty_device 2%positive "b" [autofocus] ∅ [] ∅ (VStr "3").

Definition step_broken : @WorkflowStep nat nat :=
  mkStep "Move XY" move_stage 1%positive "a" [autofocus; broken_hook] ∅ [] ∅ (VInt 0).

End Demo.

(** * Properties *)

Section TraceFacts.
Context {Callback E : Type}.
Variable invoke : Callback → gmap string Value → @State Callback E
                  → Outcome Value * @State Callback E.

Local Abbreviation World := (@World Callback E).
Local Abbreviation M := (@M Callback E).



Section Extends.
Variable h : gmap loc (gmap string Value).
Variable Q : @Call Callback → Prop.

Lemma extends_ret {A} (a : A) : extends E h Q (ret a).
Proof. intros w Hw. exists []. by rewrite app_nil_r. Qed.

Lemma extends_raise {A} e : extends E h Q (raise e : M A).
Proof. intros w Hw. exists []. by rewrite app_nil_r. Qed.

Lemma extends_lift {A} (o : Outcome A) : extends E h Q (lift o).
Proof. intros w Hw. exists []. by rewrite app_nil_r. Qed.

Lemma extends_get_context : extends E h Q get_context.
Proof. intros w Hw. exists []. by rewrite app_nil_r. Qed.

Lemma extends_modify_context f : extends E h Q (modify_context f).
Proof. intros w Hw. exists []. by rewrite app_nil_r. Qed.

Lemma extends_read_mapping l : extends E h Q (read_mapping l).
Proof. intros w Hw. exists []. by rewrite app_nil_r. Qed.

Lemma extends_call {A} (f : State → A * State) : extends E h Q (call f).
Proof.
  intros w Hw. exists []. unfold call. destruct (f (st w)) as [a s].
  by rewrite app_nil_r.
Qed.

Lemma extends_log c : Q c → extends E h Q (log c).
Proof. intros Hc w Hw. exists [c]. simpl. auto. Qed.

Lemma extends_bind {A B} (m : M A) (k : A → M B) :
  extends E h Q m → (∀ a, extends E h Q (k a)) → extends E h Q (bind m k).
Proof.
  intros Hm Hk w Hw. destruct (Hm w Hw) as (t1 & Ht1 & Hh1 & HQ1).
  unfold bind. destruct (m w) as [[a|e] w1]; simpl in *.
  - destruct (Hk a w1 Hh1) as (t2 & Ht2 & Hh2 & HQ2).
    exists (t1 ++ t2). rewrite Ht2, Ht1, app_assoc.
    split; [done|]. split; [done|]. by apply Forall_app.
  - by exists t1.
Qed.

Hypothesis Q_emit : ∀ n p, Q (Emit n p).
Hypothesis Q_deliver : ∀ cb p, Q (Deliver cb p).
Hypothesis Q_hook : ∀ ph s k, Q (CallHook ph s k).
Hypothesis Q_store : ∀ s md, Q (Store s md).

Lemma extends_deliver cbs p : extends E h Q (deliver invoke cbs p).
Proof.
  induction cbs as [|cb cbs IH]; simpl.
  - apply extends_ret.
  - apply extends_bind; [by apply extends_log|intros _].
    apply extends_bind; [apply extends_call|intros o].
    apply extends_bind; [apply extends_lift|intros _]. apply IH.
Qed.

Lemma extends_emit_event n p : extends E h Q (emit_event invoke n p).
Proof.
  unfold emit_event.
  apply extends_bind; [apply extends_get_context|intros c].
  apply extends_bind; [by apply extends_log|intros _].
  apply extends_deliver.
Qed.

Lemma extends_run_hooks ph key self params fs k md :
  extends E h Q (run_hooks ph key self params fs k md).
Proof.
  revert k md. induction fs as [|f fs IH]; intros k md; simpl.
  - apply extends_ret.
  - apply extends_bind; [by apply extends_log|intros _].
    apply extends_bind; [apply extends_call|intros r].
    apply extends_bind; [apply extends_lift|intros result].
    apply extends_bind; [apply extends_lift|intros md'].
    apply extends_bind; [apply extends_get_context|intros c].
    destruct (should_stop c); [apply extends_ret|apply IH].
Qed.

Section Step.
Variable self : @WorkflowStep Callback E.
Hypothesis Q_main :
  ∀ o, Q (CallMain (step_id self) (default ∅ (h !! main_params self)) o).

Lemma extends_call_main : extends E h Q (call_main self).
Proof.
  intros w Hw. unfold call_main, bind, read_mapping, call, log, ret; simpl.
  destruct (main_func self _ (st w)) as [o s] eqn:Hf; simpl.
  exists [CallMain (step_id self) (default ∅ (heap w !! main_params self)) o].
  split; [done|]. split; [done|]. rewrite Hw. auto.
Qed.

Lemma extends_fail_step md : extends E h Q (fail_step invoke self md).
Proof.
  unfold fail_step.
  apply extends_bind; [apply extends_modify_context|intros _].
  apply extends_bind; [by apply extends_log|intros _].
  apply extends_bind; [apply extends_modify_context|intros _].
  apply extends_emit_event.
Qed.

Lemma extends_run_main r md : extends E h Q (run_main invoke self r md).
Proof.
  revert md. induction r as [|r IH]; intros md; simpl.
  - apply extends_bind; [apply extends_call_main|intros [v|e]].
    + apply extends_ret.
    + apply extends_bind; [apply extends_fail_step|intros _]. apply extends_ret.
  - apply extends_bind; [apply extends_call_main|intros [v|e]].
    + apply extends_ret.
    + apply extends_bind; [apply extends_emit_event|intros _]. apply IH.
Qed.

Lemma extends_main_phase md : extends E h Q (main_phase invoke self md).
Proof.
  unfold main_phase. destruct (py_int _).
  - apply extends_run_main.
  - unfold run_main_untyped.
    apply extends_bind; [apply extends_call_main|intros [v|e]].
    + apply extends_ret.
    + apply extends_raise.
Qed.

Lemma extends_run_from_main md : extends E h Q (run_from_main invoke self md).
Proof.
  unfold run_from_main.
  apply extends_bind; [apply extends_main_phase|intros [md1|]]; [|apply extends_ret].
  apply extends_bind; [apply extends_run_hooks|intros [md2|]]; [|apply extends_ret].
  apply extends_bind; [by apply extends_log|intros _].
  apply extends_bind; [apply extends_modify_context|intros _].
  apply extends_bind; [apply extends_emit_event|intros _].
  destruct (md2 !! "result"); [apply extends_ret|apply extends_raise].
Qed.

Lemma extends_WorkflowStep_run : extends E h Q (WorkflowStep_run invoke self).
Proof.
  unfold WorkflowStep_run.
  apply extends_bind; [apply extends_get_context|intros c].
  destruct (should_stop c); [apply extends_ret|].
  apply extends_bind; [apply extends_read_mapping|intros params].
  apply extends_bind; [apply extends_emit_event|intros _].
  apply extends_bind; [apply extends_run_hooks|intros [md|]]; [|apply extends_ret].
  apply extends_run_from_main.
Qed.

End Step.
End Extends.
End TraceFacts.

Section LoopFacts.
Context {Callback E : Type}.
Variable invoke : Callback → gmap string Value → @State Callback E
                  → Outcome Value * @State Callback E.

Lemma step_runs_app (t1 t2 : list (@Call Callback)) :
  step_runs (t1 ++ t2) = step_runs t1 ++ step_runs t2.
Proof. apply omap_app. Qed.

Lemma step_runs_none (t : list (@Call Callback)) :
  Forall not_RunStep t → step_runs t = [].
Proof.
  induction 1 as [|c t Hc _ IH]; [done|].
  destruct c; simpl in *; done.
Qed.

Lemma WorkflowStep_run_no_RunStep (self : @WorkflowStep Callback E) w o w' :
  WorkflowStep_run invoke self w = (o, w') →
  ∃ t, trace w' = trace w ++ t ∧ step_runs t = [].
Proof.
  intros Hrun.
  destruct (extends_WorkflowStep_run invoke (heap w) not_RunStep) with (self := self) (w := w)
    as (t & Ht & _ & HQ); try done.
  rewrite Hrun in Ht. exists t. split; [done|]. by apply step_runs_none.
Qed.

Lemma run_loop_step_runs (steps : list (@WorkflowStep Callback E)) indices w o w' :
  run_loop invoke steps indices w = (o, w') →
  ∃ t, trace w' = trace w ++ t
       ∧ step_runs t `prefix_of` indices
       ∧ (o = Normal tt → should_stop (context (st w')) = false
          → step_runs t = indices).
Proof.
  revert w. induction indices as [|i rest IH]; intros w H; simpl in H.
  - injection H as <- <-. exists []. rewrite app_nil_r. done.
  - unfold bind at 1, lift in H. destruct (py_index steps i) as [step|e]; simpl in H.
    2:{ injection H as <- <-. exists []. rewrite app_nil_r.
        split; [done|]. split; [apply prefix_nil|done]. }
    unfold bind at 1, get_context in H; simpl in H.
    destruct (should_stop (context (st w))) eqn:Hstop.
    { injection H as <- <-. exists []. rewrite app_nil_r. split; [done|].
      split; [apply prefix_nil|]. intros _ Hs. congruence. }
    unfold bind at 1, log in H; simpl in H.
    set (w1 := mkWorld (st w) (heap w) (trace w ++ [RunStep i])) in H.
    unfold bind at 1 in H.
    destruct (WorkflowStep_run invoke step w1) as [[v|e] w2] eqn:Hrun.
    2:{ injection H as <- <-.
        destruct (WorkflowStep_run_no_RunStep _ _ _ _ Hrun) as (t1 & Ht1 & Hr1).
        exists (RunStep i :: t1). split.
        { rewrite Ht1. simpl. by rewrite <- app_assoc. }
        change (step_runs (RunStep i :: t1)) with (i :: step_runs t1).
        rewrite Hr1. split; [|done]. apply prefix_cons, prefix_nil. }
    destruct (WorkflowStep_run_no_RunStep _ _ _ _ Hrun) as (t1 & Ht1 & Hr1).
    unfold bind at 1, modify_context in H; simpl in H.
    destruct (IH _ H) as (t3 & Ht3 & Hp3 & Hall3).
    exists (RunStep i :: t1 ++ t3). split.
    { rewrite Ht3. simpl. rewrite Ht1. simpl. by rewrite <- !app_assoc. }
    change (step_runs (RunStep i :: t1 ++ t3)) with (i :: step_runs (t1 ++ t3)).
    rewrite step_runs_app, Hr1. simpl. split.
    + by apply prefix_cons.
    + intros Hn Hs. f_equal. by apply Hall3.
Qed.

Lemma elem_of_py_range i a b : i ∈ py_range a b ↔ a ≤ i < b.
Proof.
  unfold py_range. rewrite list_elem_of_fmap. split.
  - intros (k & -> & Hk). apply elem_of_seq in Hk. lia.
  - intros H. exists (Z.to_nat (i - a)). split; [lia|]. apply elem_of_seq. lia.
Qed.

End LoopFacts.

Section Frame.
Context {Callback E : Type}.
Variable invoke : Callback → gmap string Value → @State Callback E
                  → Outcome Value * @State Callback E.
Variable R : relation (@State Callback E).
Context `{!PreOrder R}.
Hypothesis Hlisteners : listeners_ok invoke R.

Lemma deliver_ok cbs p w :
  ∃ w', deliver invoke cbs p w = (Normal tt, w')
        ∧ R (st w) (st w') ∧ heap w' = heap w
        ∧ trace w' = trace w ++ ((λ cb, Deliver cb p) <$> cbs).
Proof.
  revert w. induction cbs as [|cb cbs IH]; intros w; simpl.
  - exists w. rewrite app_nil_r. done.
  - destruct (Hlisteners cb p (st w)) as (v & s' & Hinv & HR).
    unfold bind at 1, log; simpl. unfold bind at 1, call; simpl. rewrite Hinv.
    unfold bind at 1, lift; simpl.
    destruct (IH (mkWorld s' (heap w) (trace w ++ [Deliver cb p])))
      as (w' & Hd & HR' & Hh & Ht).
    exists w'. simpl in *. split; [done|]. split; [by etrans|].
    split; [done|]. by rewrite Ht, <- app_assoc.
Qed.

Lemma emit_event_ok n p w :
  ∃ w', emit_event invoke n p w = (Normal tt, w')
        ∧ R (st w) (st w') ∧ heap w' = heap w
        ∧ trace w' = trace w ++ emission (subscribed n (st w)) n p.
Proof.
  unfold emit_event, bind at 1, get_context; simpl.
  unfold bind at 1, log; simpl.
  destruct (deliver_ok (default [] (event_listeners (context (st w)) !! n)) p
              (mkWorld (st w) (heap w) (trace w ++ [Emit n p])))
    as (w' & Hd & HR & Hh & Ht).
  exists w'. simpl in *. split; [done|]. split; [done|]. split; [done|].
  rewrite Ht, <- app_assoc. done.
Qed.

Hypothesis R_flag :
  ∀ s s', R s s' → should_stop (context s') = should_stop (context s).

Lemma run_hooks_ok ph key self params fs k md l w :
  Forall (hook_ok R params) fs →
  should_stop (context (st w)) = false →
  key ∈ reserved_keys →
  md !! key = Some (VList l) →
  ∃ md' vs w',
    run_hooks ph key self params fs k md w = (Normal (Some md'), w')
    ∧ R (st w) (st w') ∧ heap w' = heap w
    ∧ trace w' = trace w ++ ((λ j, CallHook ph (step_id self) j) <$> seq k (length fs))
    ∧ md' !! key = Some (VList (l ++ vs)) ∧ length vs = length fs
    ∧ (∀ k', k' ∈ reserved_keys → k' ≠ key → md' !! k' = md !! k').
Proof.
  intros Hfs. revert k md l w.
  induction Hfs as [|f fs Hf _ IH]; intros k md l w Hstop Hkey Hmd; simpl.
  - exists md, [], w. rewrite !app_nil_r. done.
  - destruct (Hf md (st w)) as (v & md1 & s1 & Hcall & HR & Hkeep).
    unfold bind at 1, log; simpl. unfold bind at 1, call; simpl. rewrite Hcall.
    unfold bind at 1, lift; simpl.
    unfold py_append. rewrite (Hkeep key Hkey), Hmd.
    unfold bind at 1, lift; simpl. unfold bind at 1, get_context; simpl.
    rewrite (R_flag _ _ HR), Hstop.
    set (md2 := <[key := VList (l ++ [v])]> md1).
    set (w1 := mkWorld s1 _ _).
    destruct (IH (S k) md2 (l ++ [v]) w1) as (md' & vs & w' & Hrun & HR' & Hh & Ht & Hl & Hlen & Hother).
    { simpl. by rewrite (R_flag _ _ HR). }
    { done. }
    { unfold md2. by rewrite lookup_insert_eq. }
    exists md', (v :: vs), w'. split; [done|]. split; [by etrans|]. split; [done|].
    split. { rewrite Ht. simpl. by rewrite <- app_assoc. }
    split. { by rewrite Hl, <- app_assoc. }
    split. { simpl. by rewrite Hlen. }
    intros k' Hk' Hne. rewrite (Hother k' Hk' Hne). unfold md2.
    rewrite lookup_insert_ne by done. by apply Hkeep.
Qed.

End Frame.

#[local] Arguments emission : simpl never.
#[local] Arguments emit_event : simpl never.
#[local] Arguments fail_step : simpl never.
#[local] Arguments run_main : simpl never.
#[local] Arguments call_main : simpl never.
#[local] Arguments main_phase : simpl never.

Section MainLoopFacts.
Context {Callback E : Type}.
Variable invoke : Callback → gmap string Value → @State Callback E
                  → Outcome Value * @State Callback E.
(** [Rl] bounds the listeners, [R] the listeners and the main operation. *)
Variable Rl R : relation (@State Callback E).
Context `{!PreOrder Rl, !PreOrder R}.
Hypothesis Hlisteners_l : listeners_ok invoke Rl.
Hypothesis Rl_R : ∀ s s', Rl s s' → R s s'.
Variable self : @WorkflowStep Callback E.
Variable h : gmap loc (gmap string Value).
Hypothesis Hmain : main_framed R (main_func self) (bound_params self h).

Lemma listeners_ok_R : listeners_ok invoke R.
Proof.
  intros cb p s. destruct (Hlisteners_l cb p s) as (v & s' & Hi & H).
  exists v, s'. split; [done|]. by apply Rl_R.
Qed.

Lemma run_main_O md :
  run_main invoke self 0 md =
  (o <- call_main self ;;
   match o with
   | Normal result => ret (Some (<["result" := result]> md))
   | Raise e => fail_step invoke self (record_error e md) ;;; ret None
   end).
Proof. reflexivity. Qed.

Lemma run_main_S r md :
  run_main invoke self (S r) md =
  (o <- call_main self ;;
   match o with
   | Normal result => ret (Some (<["result" := result]> md))
   | Raise e => emit_event invoke "progress" (retrying_payload self) ;;;
                run_main invoke self r (record_error e md)
   end).
Proof. reflexivity. Qed.

Lemma call_main_eq w :
  let kw := bound_params self (heap w) in
  call_main self w =
  (Normal (main_func self kw (st w)).1,
   mkWorld (main_func self kw (st w)).2 (heap w)
     (trace w ++ [CallMain (step_id self) kw (main_func self kw (st w)).1])).
Proof.
  unfold call_main, bind, read_mapping, call, log, ret; simpl.
  by destruct (main_func self _ (st w)).
Qed.

Lemma fail_step_ok md (w : @World Callback E) :
  ∃ w', fail_step invoke self md w = (Normal tt, w') ∧ heap w' = heap w
        ∧ trace w' = trace w ++ Store (step_id self) md
            :: emission (subscribed "progress" (failed_state self md (st w)))
                 "progress" (failed_payload self)
        ∧ Rl (failed_state self md (st w)) (st w').
Proof.
  unfold fail_step, bind, modify_context, log; simpl.
  match goal with |- context [emit_event invoke ?n ?p ?w0] =>
    destruct (emit_event_ok invoke Rl Hlisteners_l n p w0) as (w' & Hemit & HR' & Hh & Ht);
    rewrite Hemit end.
  exists w'. simpl in *. split; [done|]. split; [done|]. split; [|done].
  rewrite Ht. by rewrite <- app_assoc.
Qed.

Lemma run_main_ok r md w :
  heap w = h →
  let kw := bound_params self h in
  ∃ fails o w',
    run_main invoke self r md w = (Normal o, w') ∧ heap w' = h
    ∧ Forall (λ x, R (st w) x.2 ∧ failure_of self kw x) fails
    ∧ ((∃ v, o = Some (<["result" := v]> (errors_recorded md fails))
             ∧ (length fails ≤ r)%nat ∧ success_of self kw v
             ∧ trace w' = trace w ++ flat_map (retry_block self kw) fails
                            ++ [CallMain (step_id self) kw (Normal v)]
             ∧ R (st w) (st w'))
       ∨ (∃ e s1, o = None ∧ length fails = r
             ∧ R (st w) s1 ∧ failure_of self kw (e, s1)
             ∧ let md2 := record_error e (errors_recorded md fails) in
               trace w' = trace w ++ flat_map (retry_block self kw) fails
                 ++ [CallMain (step_id self) kw (Raise e)] ++ [Store (step_id self) md2]
                 ++ emission (subscribed "progress" (failed_state self md2 s1))
                      "progress" (failed_payload self)
               ∧ Rl (failed_state self md2 s1) (st w'))).
Proof.
  revert md w. induction r as [|r IH]; intros md w Hw kw.
  - rewrite run_main_O. unfold bind at 1. rewrite call_main_eq, Hw. fold kw.
    pose proof (Hmain (st w)) as HR. fold kw in HR.
    destruct (main_func self kw (st w)) as [[v|e] s1] eqn:Hf; simpl in *.
    + eexists [], _, _. split; [reflexivity|]. split; [done|]. split; [done|].
      left. exists v. split; [done|]. split; [done|].
      split; [by exists (st w), s1|]. done.
    + unfold bind at 1.
      match goal with |- context [fail_step invoke self ?m ?w0] =>
        destruct (fail_step_ok m w0) as (w' & Hfail & Hh & Ht & HR') end.
      rewrite Hfail. simpl in *.
      exists [], None, w'. split; [done|]. split; [done|]. split; [done|].
      right. exists e, s1. split; [done|]. split; [done|]. split; [done|].
      split; [by exists (st w)|]. simpl. split; [|done].
      rewrite Ht. by rewrite <- !app_assoc.
  - rewrite run_main_S. unfold bind at 1. rewrite call_main_eq, Hw. fold kw.
    pose proof (Hmain (st w)) as HR. fold kw in HR.
    destruct (main_func self kw (st w)) as [[v|e] s1] eqn:Hf; simpl in *.
    + eexists [], _, _. split; [reflexivity|]. split; [done|]. split; [done|].
      left. exists v. split; [done|]. split; [simpl; lia|].
      split; [by exists (st w), s1|]. done.
    + unfold bind at 1.
      match goal with |- context [emit_event invoke ?n ?p ?w0] =>
        destruct (emit_event_ok invoke R listeners_ok_R n p w0) as (w2 & Hemit & HR2 & Hh2 & Ht2) end.
      rewrite Hemit.
      simpl in Hh2, HR2, Ht2.
      destruct (IH (record_error e md) w2) as (fails & o & w' & Hrun & Hh & Hfails & Hcases).
      { rewrite Hh2. done. }
      rewrite Hrun. fold kw in Hfails, Hcases.
      assert (HR02 : R (st w) (st w2)) by (etrans; [exact HR|exact HR2]).
      exists ((e, s1) :: fails), o, w'. split; [done|]. split; [done|].
      split.
      { constructor; [split; [done|by exists (st w)]|].
        eapply Forall_impl; [exact Hfails|]. intros x [Hx1 Hx2]. split; [by etrans|done]. }
      destruct Hcases as [(v & -> & Hlen & Hsucc & Ht & HR')|(e' & s' & -> & Hlen & HRs & Hfail' & Ht & HR')].
      * left. exists v. split; [done|]. split; [simpl; lia|]. split; [done|].
        split; [|by etrans]. rewrite Ht, Ht2. simpl. by rewrite <- !app_assoc.
      * right. exists e', s'. split; [done|]. split; [simpl; lia|].
        split; [by etrans|]. split; [done|]. simpl. split; [|done].
        rewrite Ht, Ht2. simpl. by rewrite <- !app_assoc.
Qed.

Lemma main_phase_ok md w :
  heap w = h →
  budget_ok self (bound_params self h) →
  let kw := bound_params self h in
  ∃ fails o w',
    main_phase invoke self md w = (Normal o, w') ∧ heap w' = h
    ∧ Forall (λ x, R (st w) x.2 ∧ failure_of self kw x) fails
    ∧ ((∃ v, o = Some (<["result" := v]> (errors_recorded md fails))
             ∧ (∀ n, py_int (max_retries self) = Some n
                     → (length fails ≤ Z.to_nat n)%nat)
             ∧ success_of self kw v
             ∧ trace w' = trace w ++ flat_map (retry_block self kw) fails
                            ++ [CallMain (step_id self) kw (Normal v)]
             ∧ R (st w) (st w'))
       ∨ (∃ e s1, o = None
             ∧ (∀ n, py_int (max_retries self) = Some n
                     → length fails = Z.to_nat n)
             ∧ R (st w) s1 ∧ failure_of self kw (e, s1)
             ∧ let md2 := record_error e (errors_recorded md fails) in
               trace w' = trace w ++ flat_map (retry_block self kw) fails
                 ++ [CallMain (step_id self) kw (Raise e)] ++ [Store (step_id self) md2]
                 ++ emission (subscribed "progress" (failed_state self md2 s1))
                      "progress" (failed_payload self)
               ∧ Rl (failed_state self md2 s1) (st w'))).
Proof.
  intros Hw Hb kw. unfold main_phase.
  destruct (py_int (max_retries self)) as [n|] eqn:Hn.
  - destruct (run_main_ok (Z.to_nat n) md w Hw) as (fails & o & w' & Hrun & Hh & Hfails & Hcases).
    exists fails, o, w'. split; [done|]. split; [done|]. split; [done|].
    destruct Hcases as [(v & -> & Hlen & Hsucc & Ht & HR')|(e & s1 & -> & Hlen & HRs & Hfail & Ht & HR')].
    + left. exists v. split; [done|]. split; [|done].
      intros n' [= <-]. done.
    + right. exists e, s1. split; [done|]. split; [|done].
      intros n' [= <-]. done.
  - unfold run_main_untyped, bind at 1. rewrite call_main_eq, Hw. fold kw.
    pose proof (Hmain (st w)) as HR. fold kw in HR.
    destruct (Hb Hn (st w)) as (v & s1 & Hf). fold kw in Hf. rewrite Hf in *. simpl in *.
    eexists [], _, _. split; [reflexivity|]. split; [done|]. split; [done|].
    left. exists v. split; [done|]. split; [done|].
    split; [by exists (st w), s1|]. done.
Qed.

End MainLoopFacts.

#[local] Arguments hook_trace : simpl never.
#[local] Arguments run_from_main : simpl never.
#[local] Arguments main_phase : simpl never.

Ltac trace_eq :=
  repeat first [progress simpl | progress rewrite <- app_assoc]; done.

Ltac in_list :=
  unfold reserved_keys;
  repeat first [apply list_elem_of_here | apply list_elem_of_further].

Ltac key_cases H :=
  repeat (apply elem_of_cons in H as [->|H]); [..|by apply elem_of_nil in H].

Section StepFacts.
Context {Callback E : Type}.
Variable invoke : Callback → gmap string Value → @State Callback E
                  → Outcome Value * @State Callback E.
Variable R : relation (@State Callback E).
Context `{!PreOrder R}.
Hypothesis Hlisteners : listeners_ok invoke R.
Hypothesis R_flag :
  ∀ s s', R s s' → should_stop (context s') = should_stop (context s).
Variable self : @WorkflowStep Callback E.
Variable h : gmap loc (gmap string Value).
Hypothesis Hmain : main_framed R (main_func self) (bound_params self h).
Hypothesis Hpre : Forall (hook_ok R (pre_params self)) (pre_funcs self).
(** Post-hooks matter only if the main operation can succeed. *)
Hypothesis Hpost :
  ∀ v, success_of self (bound_params self h) v
       → Forall (hook_ok R (post_params self)) (post_funcs self).
Hypothesis Hbudget : budget_ok self (bound_params self h).

Lemma record_error_lookup_ne e md k :
  k ≠ "error" → k ≠ "traceback" → record_error e md !! k = md !! k.
Proof. intros. unfold record_error. by rewrite !lookup_insert_ne. Qed.

Lemma errors_recorded_agree (fails : list (PyExc * @State Callback E)) md md' k :
  md !! k = md' !! k →
  errors_recorded md fails !! k = errors_recorded md' fails !! k.
Proof.
  revert md md'. induction fails as [|x fails IH]; intros md md' H; [done|].
  simpl. apply IH. unfold record_error.
  destruct (decide (k = "traceback")) as [->|]; [by rewrite !lookup_insert_eq|].
  rewrite !(lookup_insert_ne _ "traceback") by done.
  destruct (decide (k = "error")) as [->|]; [by rewrite !lookup_insert_eq|].
  by rewrite !lookup_insert_ne.
Qed.

(** Up to the main operation: the [started] event and the pre-hooks. *)
Lemma pre_phase_ok w :
  should_stop (context (st w)) = false →
  let kw := bound_params self (heap w) in
  ∃ md1 pre w2,
    WorkflowStep_run invoke self w = run_from_main invoke self md1 w2
    ∧ R (st w) (st w2) ∧ heap w2 = heap w
    ∧ trace w2 = trace w
        ++ emission (subscribed "progress" (st w)) "progress" (started_payload self)
        ++ hook_trace self Pre (length (pre_funcs self))
    ∧ md1 !! "pre_result" = Some (VList pre) ∧ length pre = length (pre_funcs self)
    ∧ (∀ k, k ∈ reserved_keys → k ≠ "pre_result"
            → md1 !! k = initial_metadata self kw !! k).
Proof.
  intros Hstop kw. unfold WorkflowStep_run.
  unfold bind at 1, get_context. simpl. rewrite Hstop.
  unfold bind at 1, read_mapping. simpl. fold (bound_params self (heap w)). fold kw.
  set (md0 := initial_metadata self kw).
  unfold bind at 1.
  destruct (emit_event_ok invoke R Hlisteners "progress" (started_payload self) w)
    as (w1 & Hemit & HR1 & Hh1 & Ht1).
  rewrite Hemit.
  unfold bind at 1.
  destruct (run_hooks_ok R R_flag Pre "pre_result" self (pre_params self)
              (pre_funcs self) 0 (<["pre_result" := VList []]> md0) [] w1)
    as (md1 & pre & w2 & Hhooks & HR2 & Hh2 & Ht2 & Hpre1 & Hprelen & Hkeep1).
  { done. }
  { by rewrite (R_flag _ _ HR1). }
  { in_list. }
  { by rewrite lookup_insert_eq. }
  rewrite Hhooks. exists md1, pre, w2. split; [done|].
  split; [by etrans|]. split; [congruence|].
  split. { rewrite Ht2, Ht1. unfold hook_trace. by rewrite <- app_assoc. }
  split; [done|]. split; [done|].
  intros k Hk Hne. rewrite (Hkeep1 k Hk Hne). by rewrite lookup_insert_ne.
Qed.

Lemma WorkflowStep_run_ok w :
  heap w = h →
  should_stop (context (st w)) = false →
  ∃ o w', WorkflowStep_run invoke self w = (o, w')
          ∧ (completed_run R self w o w' ∨ failed_run R self w o w').
Proof.
  intros Hw Hstop.
  destruct (pre_phase_ok w Hstop)
    as (md1 & pre & w2 & -> & HR02 & Hh2 & Ht2 & Hpre1 & Hprelen & Hkeep1).
  rewrite Hw in *.
  set (kw := bound_params self h) in *.
  set (md0 := initial_metadata self kw) in *.
  unfold run_from_main, bind at 1.
  destruct (main_phase_ok invoke R R Hlisteners (λ _ _ H, H) self h Hmain md1 w2 Hh2 Hbudget)
    as (fails & om & w3 & Hrun & Hh3 & Hfails & Hcases).
  fold kw in Hfails, Hcases.
  rewrite Hrun.
  assert (Hfails' : Forall (λ x, R (st w) x.2 ∧ failure_of self kw x) fails).
  { eapply Forall_impl; [exact Hfails|]. intros x [? ?]. split; [by etrans|done]. }
  destruct Hcases as [(v & -> & Hlen & Hsucc & Ht3 & HR3)|(e & s1 & -> & Hlen & HRs & Hfail & Ht3 & HR3)].
  - set (md2 := <["result" := v]> (errors_recorded md1 fails)).
    unfold bind at 1.
    destruct (run_hooks_ok R R_flag Post "post_result" self (post_params self)
                (post_funcs self) 0 (<["post_result" := VList []]> md2) [] w3)
      as (md3 & post & w4 & Hhooks' & HR4 & Hh4 & Ht4 & Hpost1 & Hpostlen & Hkeep3).
    { by eapply Hpost. }
    { rewrite (R_flag _ _ HR3), (R_flag _ _ HR02). done. }
    { in_list. }
    { by rewrite lookup_insert_eq. }
    rewrite Hhooks'.
    unfold bind at 1, log. simpl. unfold bind at 1, modify_context. simpl.
    unfold bind at 1.
    match goal with |- context [emit_event invoke ?n ?p ?w0] =>
      destruct (emit_event_ok invoke R Hlisteners n p w0) as (w5 & Hemit5 & HR5 & Hh5 & Ht5) end.
    rewrite Hemit5.
    assert (Hres : md3 !! "result" = Some v).
    { rewrite Hkeep3; [|in_list|done].
      rewrite lookup_insert_ne by done. unfold md2. by rewrite lookup_insert_eq. }
    rewrite Hres.
    eexists _, _. split; [reflexivity|]. left. unfold completed_run. rewrite Hw.
    exists fails, v, md3, (st w4), pre, post. simpl in *.
    split; [done|]. split; [congruence|]. split; [done|].
    split; [done|].
    split; [done|]. split. { etrans; [exact HR02|]. by etrans. }
    split; [done|].
    split.
    { intros k Hk.
      assert (md3 !! k = md2 !! k) as ->.
      { key_cases Hk; (rewrite Hkeep3; [|in_list|done]); by rewrite lookup_insert_ne. }
      unfold md2.
      destruct (decide (k = "result")) as [->|Hne]; [by rewrite !lookup_insert_eq|].
      rewrite !lookup_insert_ne by done.
      apply errors_recorded_agree.
      key_cases Hk; by (rewrite Hkeep1; [|in_list|done]). }
    split.
    { rewrite Hkeep3; [|in_list|done].
      rewrite lookup_insert_ne by done. unfold md2.
      rewrite lookup_insert_ne by done.
      erewrite (errors_recorded_agree fails md1 (<["pre_result" := VList pre]> ∅)).
      2:{ rewrite Hpre1. by rewrite lookup_insert_eq. }
      clear. induction fails as [|x fails IH] using rev_ind; [done|].
      unfold errors_recorded. rewrite foldl_app. simpl.
      by rewrite record_error_lookup_ne. }
    split; [done|]. split; [done|]. split; [done|].
    rewrite Ht5. simpl. rewrite Ht4, Ht3, Ht2. trace_eq.
  - eexists _, _. split; [reflexivity|]. right. unfold failed_run. rewrite Hw.
    set (md2 := record_error e (errors_recorded md1 fails)) in *.
    exists fails, e, md2, s1, pre. simpl in *.
    split; [done|]. split; [congruence|]. split; [done|].
    split; [done|].
    split; [done|]. split; [by etrans|]. split; [done|].
    split.
    { intros k Hk. unfold md2, record_error.
      destruct (decide (k = "traceback")) as [->|]; [by rewrite !lookup_insert_eq|].
      rewrite !(lookup_insert_ne _ "traceback") by done.
      destruct (decide (k = "error")) as [->|]; [by rewrite !lookup_insert_eq|].
      rewrite !lookup_insert_ne by done.
      apply errors_recorded_agree.
      key_cases Hk; by (rewrite Hkeep1; [|in_list|done]). }
    split.
    { unfold md2. rewrite record_error_lookup_ne by done.
      erewrite (errors_recorded_agree fails md1 (<["pre_result" := VList pre]> ∅)).
      2:{ rewrite Hpre1. by rewrite lookup_insert_eq. }
      clear. induction fails as [|x fails IH] using rev_ind; [done|].
      unfold errors_recorded. rewrite foldl_app. simpl.
      by rewrite record_error_lookup_ne. }
    split; [done|].
    rewrite Ht3, Ht2. trace_eq.
Qed.

End StepFacts.

(** ** Projections of the trace shapes *)

Section Shapes.
Context {Callback E : Type}.
Variable self : @WorkflowStep Callback E.
Implicit Types t : list (@Call Callback).
Implicit Types cbs : list Callback.

Lemma main_outcomes_app t1 t2 :
  main_outcomes (t1 ++ t2) = main_outcomes t1 ++ main_outcomes t2.
Proof. unfold main_outcomes, main_calls. by rewrite omap_app, fmap_app. Qed.
Lemma emitted_app t1 t2 : emitted (t1 ++ t2) = emitted t1 ++ emitted t2.
Proof. apply omap_app. Qed.
Lemma statuses_app t1 t2 : statuses (t1 ++ t2) = statuses t1 ++ statuses t2.
Proof. unfold statuses. by rewrite emitted_app, fmap_app. Qed.
Lemma stores_app t1 t2 : stores (t1 ++ t2) = stores t1 ++ stores t2.
Proof. apply omap_app. Qed.
Lemma notifications_app t1 t2 :
  notifications (t1 ++ t2) = notifications t1 ++ notifications t2.
Proof. apply omap_app. Qed.
Lemma hook_calls_app t1 t2 : hook_calls (t1 ++ t2) = hook_calls t1 ++ hook_calls t2.
Proof. apply omap_app. Qed.

Lemma omap_deliveries {B} (f : @Call Callback → option B) (cbs : list Callback) p :
  (∀ cb, f (Deliver cb p) = None) →
  omap f ((λ cb, Deliver cb p) <$> cbs) = [].
Proof. intros H. induction cbs as [|cb cbs IH]; simpl; [done|]. by rewrite H. Qed.

Lemma main_outcomes_emission cbs n p :
  main_outcomes (emission cbs n p) = [].
Proof.
  unfold main_outcomes, main_calls, emission. simpl.
  by rewrite omap_deliveries.
Qed.
Lemma stores_emission cbs n p : stores (emission cbs n p) = [].
Proof. unfold stores, emission. simpl. by rewrite omap_deliveries. Qed.
Lemma emitted_emission cbs n p : emitted (emission cbs n p) = [(n, p)].
Proof. unfold emitted, emission. simpl. by rewrite omap_deliveries. Qed.
Lemma statuses_emission cbs n p : statuses (emission cbs n p) = [p !! "status"].
Proof. unfold statuses. by rewrite emitted_emission. Qed.
Lemma hook_calls_emission cbs n p : hook_calls (emission cbs n p) = [].
Proof. unfold hook_calls, emission. simpl. by rewrite omap_deliveries. Qed.
Lemma notifications_emission cbs n p :
  notifications (emission cbs n p) = emission cbs n p.
Proof.
  unfold notifications, emission. simpl. f_equal.
  induction cbs as [|cb cbs IH]; simpl; [done|]. by f_equal.
Qed.

Lemma omap_hook_trace {B} (f : @Call Callback → option B) ph n :
  (∀ j, f (CallHook ph (step_id self) j) = None) →
  omap f (hook_trace self ph n) = [].
Proof.
  intros H. unfold hook_trace. induction (seq 0 n) as [|j l IH]; simpl; [done|].
  by rewrite H.
Qed.

Lemma main_outcomes_hook_trace ph n : main_outcomes (hook_trace self ph n) = [].
Proof. unfold main_outcomes, main_calls. by rewrite omap_hook_trace. Qed.
Lemma stores_hook_trace ph n : stores (hook_trace self ph n) = [].
Proof. unfold stores. by rewrite omap_hook_trace. Qed.
Lemma emitted_hook_trace ph n : emitted (hook_trace self ph n) = [].
Proof. unfold emitted. by rewrite omap_hook_trace. Qed.
Lemma statuses_hook_trace ph n : statuses (hook_trace self ph n) = [].
Proof. unfold statuses. by rewrite emitted_hook_trace. Qed.
Lemma notifications_hook_trace ph n : notifications (hook_trace self ph n) = [].
Proof. unfold notifications. by rewrite omap_hook_trace. Qed.

Lemma retry_block_eq kw (x : PyExc * @State Callback E) :
  retry_block self kw x
  = [CallMain (step_id self) kw (Raise x.1)]
    ++ emission (subscribed "progress" x.2) "progress" (retrying_payload self).
Proof. reflexivity. Qed.

Lemma main_outcomes_retries kw (fails : list (PyExc * @State Callback E)) :
  main_outcomes (flat_map (retry_block self kw) fails) = (λ x, Raise x.1) <$> fails.
Proof.
  induction fails as [|x fails IH]; [done|]. cbn [flat_map].
  rewrite retry_block_eq, !main_outcomes_app, main_outcomes_emission, IH. done.
Qed.
Lemma stores_retries kw (fails : list (PyExc * @State Callback E)) :
  stores (flat_map (retry_block self kw) fails) = [].
Proof.
  induction fails as [|x fails IH]; [done|]. cbn [flat_map].
  rewrite retry_block_eq, !stores_app, stores_emission, IH. done.
Qed.
Lemma statuses_retries kw (fails : list (PyExc * @State Callback E)) :
  statuses (flat_map (retry_block self kw) fails)
  = replicate (length fails) (Some (VStr "retrying")).
Proof.
  induction fails as [|x fails IH]; [done|]. cbn [flat_map].
  rewrite retry_block_eq, !statuses_app, statuses_emission, IH. done.
Qed.

End Shapes.

Create Rewrite HintDb trace.
#[local] Hint Rewrite @main_outcomes_app @emitted_app @statuses_app @stores_app
  @notifications_app @hook_calls_app
  @main_outcomes_emission @stores_emission @emitted_emission @statuses_emission
  @hook_calls_emission @notifications_emission
  @main_outcomes_hook_trace @stores_hook_trace @emitted_hook_trace
  @statuses_hook_trace @notifications_hook_trace
  @main_outcomes_retries @stores_retries @statuses_retries : trace.

#[export] Instance frame_preorder {Callback E : Type} (ids : gset string) :
  PreOrder (@frame Callback E ids).
Proof.
  split.
  - intros s. unfold frame. set_solver.
  - intros s1 s2 s3 (Hf1 & Ha1 & Hb1) (Hf2 & Ha2 & Hb2). unfold frame.
    split; [congruence|]. set_solver.
Qed.

Section FrameFacts.
Context {Callback E : Type}.
Variable invoke : Callback → gmap string Value → @State Callback E
                  → Outcome Value * @State Callback E.

Lemma frame_flag ids (s s' : @State Callback E) :
  frame ids s s' → should_stop (context s') = should_stop (context s).
Proof. by intros [? _]. Qed.

Lemma listeners_ok_mono ids :
  listeners_ok invoke (frame ∅) → listeners_ok invoke (frame ids).
Proof.
  intros H cb p s. destruct (H cb p s) as (v & s' & Hi & Hf & Ha & Hb).
  exists v, s'. split; [done|]. unfold frame. split; [done|]. set_solver.
Qed.

Hypothesis Hlisteners : listeners_ok invoke (frame ∅).

Lemma step_completes self w :
  step_ok (heap w) self → main_never_fails (heap w) self →
  should_stop (context (st w)) = false →
  ∃ v w' t,
    WorkflowStep_run invoke self w = (Normal v, w')
    ∧ should_stop (context (st w')) = false
    ∧ dom (data (context (st w'))) = dom (data (context (st w))) ∪ {[step_id self]}
    ∧ heap w' = heap w
    ∧ trace w' = trace w ++ t ∧ step_runs t = []
    ∧ main_outcomes t = [Normal v].
Proof.
  intros (Hpre & Hpost & Hmain & Hbudget) Hnf Hstop.
  destruct (WorkflowStep_run_ok invoke (frame {[step_id self]})
              (listeners_ok_mono _ Hlisteners) (frame_flag _) self (heap w)
              Hmain Hpre (λ _ _, Hpost) Hbudget w eq_refl Hstop) as (o & w' & Hrun & Hcases).
  destruct (WorkflowStep_run_no_RunStep invoke self w o w' Hrun) as (t & Ht & Hruns).
  destruct Hcases as [H|H].
  - destruct H as (fails & v & md & s1 & pre & post & -> & Hh & Hfails & _ & _
                   & HR1 & HR2 & _ & _ & _ & _ & _ & Ht').
    assert (fails = []) as ->.
    { destruct fails as [|[e s] fails]; [done|].
      apply Forall_cons in Hfails as [[_ [s0 Hf]] _].
      destruct (Hnf s0) as (? & ? & Hn).
      simpl in Hf. congruence. }
    exists v, w', t. split; [done|].
    destruct HR1 as (Hf1 & Ha1 & Hb1). destruct HR2 as (Hf2 & Ha2 & Hb2).
    simpl in Hf1, Ha1, Hb1, Hf2, Ha2, Hb2. split; [congruence|]. split.
    { rewrite dom_insert_L in *. set_solver. }
    split; [done|]. split; [done|]. split; [done|].
    rewrite Ht in Ht'. apply app_inv_head in Ht'. subst t.
    autorewrite with trace. done.
  - destruct H as (fails & e & md & s1 & pre & _ & _ & _ & _ & [s0 Hf] & _).
    destruct (Hnf s0) as (? & ? & Hn).
    simpl in Hf. congruence.
Qed.

End FrameFacts.

Section StepFails.
Context {Callback E : Type}.
Variable invoke : Callback → gmap string Value → @State Callback E
                  → Outcome Value * @State Callback E.
Hypothesis Hlisteners : listeners_ok invoke (frame ∅).

Lemma step_fails self w n :
  Forall (hook_ok (frame {[step_id self]}) (pre_params self)) (pre_funcs self) →
  main_framed (frame {[step_id self]}) (main_func self) (bound_params self (heap w)) →
  py_int (max_retries self) = Some n →
  main_always_fails (heap w) self →
  should_stop (context (st w)) = false →
  ∃ w' t md,
    WorkflowStep_run invoke self w = (Normal VNone, w')
    ∧ should_stop (context (st w')) = true
    ∧ dom (data (context (st w'))) = dom (data (context (st w))) ∪ {[step_id self]}
    ∧ heap w' = heap w
    ∧ trace w' = trace w ++ t ∧ step_runs t = []
    ∧ length (main_outcomes t) = S (Z.to_nat n)
    ∧ Forall (λ o, is_normal o = false) (main_outcomes t)
    ∧ stores t = [(step_id self, md)]
    ∧ is_Some (md !! "error") ∧ is_Some (md !! "traceback").
Proof.
  intros Hpre Hmain Hn Haf Hstop.
  destruct (WorkflowStep_run_ok invoke (frame {[step_id self]})
              (listeners_ok_mono invoke _ Hlisteners) (frame_flag _) self (heap w)
              Hmain Hpre) with (w := w) as (o & w' & Hrun & Hcases).
  { intros v (s0 & s2 & Hs). destruct (Haf s0) as (? & ? & Hf). congruence. }
  { intros Hnone. congruence. }
  { done. }
  { done. }
  destruct (WorkflowStep_run_no_RunStep invoke self w o w' Hrun) as (t & Ht & Hruns).
  destruct Hcases as [H|H].
  - destruct H as (fails & v & md & s1 & pre & post & _ & _ & _ & _ & (s0 & s2 & Hs) & _).
    destruct (Haf s0) as (? & ? & Hf). unfold bound_params in *.
    congruence.
  - destruct H as (fails & e & md & s1 & pre & -> & Hh & Hfails & Hlen & _
                   & HR1 & HR2 & Hcore & _ & _ & Ht').
    exists w', t, md. split; [done|].
    destruct HR1 as (Hf1 & Ha1 & Hb1). destruct HR2 as (Hf2 & Ha2 & Hb2).
    simpl in Hf1, Ha1, Hb1, Hf2, Ha2, Hb2. split; [congruence|]. split.
    { rewrite dom_insert_L in *. set_solver. }
    split; [done|]. split; [done|]. split; [done|].
    rewrite Ht in Ht'. apply app_inv_head in Ht'. subst t.
    autorewrite with trace. simpl.
    split. { rewrite length_app, length_fmap, (Hlen n Hn). simpl. lia. }
    split. { apply Forall_app. split; [|by repeat constructor].
             apply Forall_fmap, Forall_forall. done. }
    split; [done|].
    split; (rewrite Hcore; [|in_list]); unfold record_error.
    + rewrite lookup_insert_ne by done. rewrite lookup_insert_eq. by eexists.
    + rewrite lookup_insert_eq. by eexists.
Qed.

End StepFails.

(** ** The loop of [Workflow.run] *)

Section Ranges.

Lemma py_range_nil a b : b ≤ a → py_range a b = [].
Proof. intros. unfold py_range. by replace (Z.to_nat (b - a)) with 0%nat by lia. Qed.

Lemma py_range_cons a b : a < b → py_range a b = a :: py_range (a + 1) b.
Proof.
  intros. unfold py_range.
  replace (Z.to_nat (b - a)) with (S (Z.to_nat (b - (a + 1)))) by lia.
  cbn [seq fmap list_fmap]. f_equal; [lia|].
  rewrite <- fmap_S_seq, <- list_fmap_compose. apply list_fmap_ext.
  intros _ k _. simpl. lia.
Qed.

Lemma py_range_snoc a b : a ≤ b → py_range a (b + 1) = py_range a b ++ [b].
Proof.
  intros. unfold py_range.
  replace (Z.to_nat (b + 1 - a)) with (Z.to_nat (b - a) + 1)%nat by lia.
  rewrite seq_app, fmap_app. simpl. do 2 f_equal. lia.
Qed.

Lemma py_range_app a m b :
  a ≤ m ≤ b → py_range a b = py_range a m ++ py_range m b.
Proof.
  intros. unfold py_range.
  replace (Z.to_nat (b - a)) with (Z.to_nat (m - a) + Z.to_nat (b - m))%nat by lia.
  rewrite seq_app, fmap_app. f_equal. simpl.
  replace (seq (Z.to_nat (m - a)) (Z.to_nat (b - m)))
    with (Nat.add (Z.to_nat (m - a)) <$> seq 0 (Z.to_nat (b - m)))
    by (rewrite fmap_add_seq; f_equal; lia).
  rewrite <- list_fmap_compose.
  apply list_fmap_ext. intros _ k _. simpl. lia.
Qed.

Lemma length_py_range a b : length (py_range a b) = Z.to_nat (b - a).
Proof. unfold py_range. by rewrite length_fmap, length_seq. Qed.

Lemma py_index_nat {A} (l : list A) (j : nat) x :
  l !! j = Some x → py_index l (Z.of_nat j) = Normal x.
Proof.
  intros H. unfold py_index. cbn zeta.
  destruct (decide (0 ≤ Z.of_nat j)); [|lia].
  destruct (decide (0 ≤ Z.of_nat j)); [|lia]. by rewrite Nat2Z.id, H.
Qed.

Lemma py_index_in_range {A} (l : list A) i :
  0 ≤ i < Z.of_nat (length l) → ∃ x, l !! Z.to_nat i = Some x ∧ py_index l i = Normal x.
Proof.
  intros H. destruct (lookup_lt_is_Some_2 l (Z.to_nat i)) as [x Hx]; [lia|].
  exists x. split; [done|]. rewrite <- (Z2Nat.id i) by lia. by apply py_index_nat.
Qed.

End Ranges.

#[local] Arguments WorkflowStep_run : simpl never.

Section Loop.
Context {Callback E : Type}.
Variable invoke : Callback → gmap string Value → @State Callback E
                  → Outcome Value * @State Callback E.
Variable steps : list (@WorkflowStep Callback E).

Lemma run_loop_cons i rest :
  run_loop invoke steps (i :: rest) =
  (step <- lift (py_index steps i) ;;
   c <- get_context ;;
   if should_stop c then ret tt
   else log (RunStep i) ;;;
        WorkflowStep_run invoke step ;;;
        modify_context (set_current_step_index (i + 1)) ;;;
        run_loop invoke steps rest).
Proof. reflexivity. Qed.

Lemma run_loop_stopped indices w :
  should_stop (context (st w)) = true → Forall (in_range steps) indices →
  run_loop invoke steps indices w = (Normal tt, w).
Proof.
  intros Hstop Hin. destruct Hin as [|i rest Hi _]; [done|].
  destruct (py_index_in_range steps i Hi) as (x & _ & Hx).
  rewrite run_loop_cons. unfold bind at 1, lift. rewrite Hx.
  unfold bind at 1, get_context. simpl. by rewrite Hstop.
Qed.

(** Once the flag is set the remaining indices change nothing. *)
Lemma run_loop_app_stopped is1 is2 w o w' :
  run_loop invoke steps is1 w = (o, w') →
  (o = Normal tt → should_stop (context (st w')) = true) →
  Forall (in_range steps) is2 →
  run_loop invoke steps (is1 ++ is2) w = (o, w').
Proof.
  intros Hrun Hstop Hin. revert w Hrun.
  induction is1 as [|i rest IH]; intros w Hrun.
  - simpl in Hrun. injection Hrun as <- <-. simpl.
    by apply run_loop_stopped; [apply Hstop|].
  - rewrite <- app_comm_cons, run_loop_cons. rewrite run_loop_cons in Hrun.
    unfold bind, lift, get_context, log, modify_context in *.
    destruct (py_index steps i) as [step|e]; [|done].
    destruct (should_stop (context (st w))); [done|].
    destruct (WorkflowStep_run invoke step _) as [[v|e] w1]; [|done].
    by apply IH.
Qed.

(** The loop looks at the step list only through the indices it visits. *)
Lemma run_loop_ext (steps' : list (@WorkflowStep Callback E)) indices w :
  Forall (λ i, py_index steps i = py_index steps' i) indices →
  run_loop invoke steps indices w = run_loop invoke steps' indices w.
Proof.
  intros Hin. revert w. induction Hin as [|i rest Hi _ IH]; intros w; [done|].
  cbn [run_loop]. unfold bind, lift, get_context, log, modify_context.
  rewrite Hi. destruct (py_index steps' i) as [step|e]; [|done].
  destruct (should_stop (context (st w))); [done|].
  destruct (WorkflowStep_run invoke step _) as [[v|e] w1]; [|done].
  apply IH.
Qed.

Hypothesis Hlisteners : listeners_ok invoke (frame ∅).

(** Steps [a .. a+g-1] all complete. *)
Lemma run_loop_good (g a : nat) w :
  (∀ j step, (a ≤ j < a + g)%nat → steps !! j = Some step
             → step_ok (heap w) step ∧ main_never_fails (heap w) step) →
  (a + g ≤ length steps)%nat →
  should_stop (context (st w)) = false →
  ∃ w' t,
    run_loop invoke steps (py_range (Z.of_nat a) (Z.of_nat (a + g))) w = (Normal tt, w')
    ∧ should_stop (context (st w')) = false
    ∧ dom (data (context (st w')))
      = dom (data (context (st w))) ∪ list_to_set (step_id <$> take g (drop a steps))
    ∧ heap w' = heap w
    ∧ trace w' = trace w ++ t
    ∧ step_runs t = py_range (Z.of_nat a) (Z.of_nat (a + g))
    ∧ Forall (λ o, is_normal o = true) (main_outcomes t)
    ∧ length (main_outcomes t) = g
    ∧ (g ≠ 0%nat → current_step_index (context (st w')) = Z.of_nat (a + g))
    ∧ (g = 0%nat → w' = w).
Proof.
  revert a w. induction g as [|g IH]; intros a w Hgood Hlen Hstop.
  - rewrite py_range_nil by lia. exists w, []. simpl.
    rewrite app_nil_r. split; [done|]. split; [done|].
    split; [set_solver|]. done.
  - rewrite py_range_cons by lia.
    destruct (lookup_lt_is_Some_2 steps a) as [step Hstep]; [lia|].
    destruct (Hgood a step ltac:(lia) Hstep) as [Hok Hnf].
    rewrite run_loop_cons. unfold bind at 1, lift.
    rewrite (py_index_nat _ _ _ Hstep).
    unfold bind at 1, get_context. simpl. rewrite Hstop.
    unfold bind at 1, log. simpl. unfold bind at 1.
    set (w0 := mkWorld (st w) (heap w) (trace w ++ [RunStep (Z.of_nat a)])).
    destruct (step_completes invoke Hlisteners step w0 Hok Hnf Hstop)
      as (v & w1 & t1 & Hrun & Hstop1 & Hdom1 & Hh1 & Ht1 & Hruns1 & Hmo1).
    rewrite Hrun. unfold bind at 1, modify_context. simpl.
    set (w2 := mkWorld _ _ _).
    destruct (IH (S a) w2) as (w' & t & Hloop & Hstop' & Hdom' & Hh' & Ht' & Hruns' & Hmo' & Hlen' & Hcur' & Hw').
    { intros j s Hj. simpl. rewrite Hh1. simpl. apply Hgood. lia. }
    { lia. }
    { done. }
    replace (Z.of_nat a + 1) with (Z.of_nat (S a)) by lia.
    replace (Z.of_nat (a + S g)) with (Z.of_nat (S a + g)) by lia.
    rewrite Hloop. exists w', ([RunStep (Z.of_nat a)] ++ t1 ++ t).
    split; [done|]. split; [done|]. split.
    { rewrite Hdom'. simpl. rewrite Hdom1. simpl.
      rewrite (drop_S _ _ _ Hstep). simpl. set_solver. }
    split. { rewrite Hh'. simpl. done. }
    split. { rewrite Ht'. simpl. rewrite Ht1. simpl. by rewrite <- !app_assoc. }
    split. { rewrite !step_runs_app, Hruns1, Hruns'. done. }
    split. { rewrite !main_outcomes_app, Hmo1. simpl.
             constructor; [done|]. done. }
    split. { rewrite !main_outcomes_app, Hmo1. simpl. by rewrite Hlen'. }
    split; [|done]. intros _.
    destruct (decide (g = 0%nat)) as [->|Hg].
    + rewrite (Hw' eq_refl). simpl. lia.
    + rewrite (Hcur' Hg). lia.
Qed.

End Loop.

Section WorkflowFacts.
Context {Callback E : Type}.
Variable invoke : Callback → gmap string Value → @State Callback E
                  → Outcome Value * @State Callback E.
Hypothesis Hlisteners : listeners_ok invoke (frame ∅).

Lemma Workflow_run_eq steps (w : @World Callback E) :
  Workflow_run invoke steps w
  = run_loop invoke steps
      (py_range (current_step_index (context (st w))) (Z.of_nat (length steps))) w.
Proof. reflexivity. Qed.

Lemma in_range_py_range (steps : list (@WorkflowStep Callback E)) a :
  0 ≤ a → Forall (in_range steps) (py_range a (Z.of_nat (length steps))).
Proof.
  intros Ha. apply Forall_forall. intros i Hi.
  apply elem_of_py_range in Hi. unfold in_range. lia.
Qed.

(** C7, as amended. A workflow of [N] steps whose main operations never
    fail, run on a fresh context with no stop requested, when every
    hook, main operation and listener leaves the stop flag alone and writes
    results only under the identifier of the step it belongs to: [run]
    returns with the resume cursor at [N], the results map holds exactly
    the steps' identifiers, and so [N] entries when these are pairwise
    distinct. *)
Theorem run_all_steps steps (w : @World Callback E) :
  Forall (λ s, step_ok (heap w) s ∧ main_never_fails (heap w) s) steps →
  fresh_context (context (st w)) →
  ∃ w',
    Workflow_run invoke steps w = (Normal tt, w')
    ∧ current_step_index (context (st w')) = Z.of_nat (length steps)
    ∧ should_stop (context (st w')) = false
    ∧ dom (data (context (st w'))) = list_to_set (step_id <$> steps)
    ∧ (NoDup (step_id <$> steps)
       → size (data (context (st w'))) = length steps).
Proof.
  intros Hgood (Hdata & Hstop & Hcur).
  rewrite Workflow_run_eq, Hcur.
  destruct (run_loop_good invoke steps Hlisteners (length steps) 0 w)
    as (w' & t & Hloop & Hstop' & Hdom & Hh & Ht & Hruns & _ & _ & Hcur' & Hw').
  { intros j s _ Hj. eapply Forall_lookup_1 in Hgood; eauto. }
  { simpl. lia. }
  { done. }
  change (Z.of_nat 0) with 0 in Hloop.
  change (0 + length steps)%nat with (length steps) in Hloop.
  rewrite Hloop. exists w'. split; [done|].
  assert (Hd : dom (data (context (st w'))) = list_to_set (step_id <$> steps)).
  { rewrite Hdom, Hdata, dom_empty_L, drop_0, firstn_all. set_solver. }
  split.
  { destruct (decide (length steps = 0%nat)) as [Hz|Hnz].
    - rewrite (Hw' Hz), Hcur, Hz. done.
    - rewrite (Hcur' Hnz). done. }
  split; [done|]. split; [done|].
  intros Hnd. rewrite <- size_dom, Hd, size_list_to_set by done.
  by rewrite length_fmap.
Qed.

(** C1, as amended. Steps [0..k-1] complete without failure, step [k]
    fails on every attempt, and every hook, main operation and listener
    leaves the stop flag alone and writes results only under the
    identifier of its own step. Then [run] returns with the stop flag
    set and the cursor at [k+1]; the results map holds exactly the
    identifiers of steps [0..k] ([k+1] entries when they are distinct);
    the record stored last is the failed step's, with its error and
    traceback; [run] was invoked on steps [0..k] only, and the whole run
    is that of the workflow cut after step [k]. *)
Theorem run_until_failure steps (k : nat) failing (w : @World Callback E) :
  steps !! k = Some failing →
  Forall (λ s, step_ok (heap w) s ∧ main_never_fails (heap w) s) (take k steps) →
  Forall (hook_ok (frame {[step_id failing]}) (pre_params failing)) (pre_funcs failing) →
  main_framed (frame {[step_id failing]}) (main_func failing)
    (bound_params failing (heap w)) →
  is_Some (py_int (max_retries failing)) →
  main_always_fails (heap w) failing →
  fresh_context (context (st w)) →
  ∃ w' t md,
    Workflow_run invoke steps w = (Normal tt, w')
    ∧ should_stop (context (st w')) = true
    ∧ current_step_index (context (st w')) = Z.of_nat k + 1
    ∧ dom (data (context (st w'))) = list_to_set (step_id <$> take (S k) steps)
    ∧ (NoDup (step_id <$> take (S k) steps)
       → size (data (context (st w'))) = S k)
    ∧ trace w' = trace w ++ t
    ∧ step_runs t = py_range 0 (Z.of_nat k + 1)
    ∧ last (stores t) = Some (step_id failing, md)
    ∧ is_Some (md !! "error") ∧ is_Some (md !! "traceback")
    ∧ Workflow_run invoke steps w = Workflow_run invoke (take (S k) steps) w.
Proof.
  intros Hk Hgood Hpre Hmain [n Hn] Hfail (Hdata & Hstop & Hcur).
  assert (Hklt : (k < length steps)%nat) by (by eapply lookup_lt_Some).
  (* steps 0 .. k-1 *)
  destruct (run_loop_good invoke steps Hlisteners k 0 w)
    as (w1 & t1 & Hloop1 & Hstop1 & Hdom1 & Hh1 & Ht1 & Hruns1 & _ & _ & _ & _).
  { intros j s Hj Hs. apply (Forall_lookup_1 _ _ j s) in Hgood; [done|].
    rewrite lookup_take_lt by lia. done. }
  { simpl. lia. }
  { done. }
  change (Z.of_nat 0) with 0 in Hloop1, Hruns1.
  change (0 + k)%nat with k in Hloop1, Hruns1.
  (* step k *)
  set (w1' := mkWorld (st w1) (heap w1) (trace w1 ++ [RunStep (Z.of_nat k)])).
  destruct (step_fails invoke Hlisteners failing w1' n) as
    (w2 & t2 & md & Hrun2 & Hstop2 & Hdom2 & Hh2 & Ht2 & Hruns2 & _ & _
        & Hstores2 & Herr & Htb); try done.
  1-2: by (simpl; rewrite Hh1).
  set (w3 := mkWorld (mkState (set_current_step_index (Z.of_nat k + 1) (context (st w2)))
                        (ext (st w2))) (heap w2) (trace w2)).
  assert (Hstepk : run_loop invoke steps [Z.of_nat k] w1 = (Normal tt, w3)).
  { rewrite run_loop_cons. unfold bind at 1, lift.
    rewrite (py_index_nat _ _ _ Hk).
    unfold bind at 1, get_context. simpl. rewrite Hstop1.
    unfold bind at 1, log. simpl. unfold bind at 1. fold w1'. rewrite Hrun2.
    unfold bind at 1, modify_context. simpl. done. }
  assert (Hprefix : run_loop invoke steps (py_range 0 (Z.of_nat k + 1)) w = (Normal tt, w3)).
  { rewrite py_range_snoc by lia.
    revert Hloop1 Hstepk. generalize (py_range 0 (Z.of_nat k)). clear.
    intros is1. revert w. induction is1 as [|i rest IH]; intros w H1 H2.
    - simpl in H1. injection H1 as <-. done.
    - rewrite <- app_comm_cons. cbn [run_loop] in *.
      unfold bind, lift, get_context, log, modify_context in *.
      destruct (py_index steps i) as [step|e]; [|done].
      destruct (should_stop (context (st w))) eqn:Hs.
      { injection H1 as <-. simpl in H2.
        destruct (py_index steps (Z.of_nat k)); [|done]. by rewrite Hs in H2. }
      destruct (WorkflowStep_run invoke step _) as [[v|e] w0]; [|done].
      by apply IH. }
  assert (Hfull : Workflow_run invoke steps w = (Normal tt, w3)).
  { rewrite Workflow_run_eq, Hcur.
    rewrite (py_range_app 0 (Z.of_nat k + 1)) by lia.
    apply run_loop_app_stopped; [done|done|].
    apply Forall_forall. intros i Hi. apply elem_of_py_range in Hi.
    unfold in_range. lia. }
  exists w3, (t1 ++ [RunStep (Z.of_nat k)] ++ t2), md.
  split; [done|]. split; [done|]. split; [done|].
  assert (Hd : dom (data (context (st w3))) = list_to_set (step_id <$> take (S k) steps)).
  { simpl. rewrite Hdom2. simpl. rewrite Hdom1, Hdata, dom_empty_L, drop_0.
    rewrite (take_S_r _ _ _ Hk), fmap_app. simpl. set_solver. }
  split; [done|]. split.
  { intros Hnd. rewrite <- size_dom, Hd, size_list_to_set by done.
    rewrite length_fmap, length_take. lia. }
  split. { simpl. rewrite Ht2. simpl. rewrite Ht1. by rewrite <- !app_assoc. }
  split. { rewrite !step_runs_app, Hruns1, Hruns2, py_range_snoc by lia. done. }
  split. { rewrite !stores_app, Hstores2. simpl. by rewrite last_snoc. }
  split; [done|]. split; [done|].
  rewrite Hfull. symmetry. rewrite Workflow_run_eq, Hcur.
  rewrite length_take, Nat.min_l by lia.
  replace (Z.of_nat (S k)) with (Z.of_nat k + 1) by lia.
  rewrite <- Hprefix. symmetry. apply run_loop_ext.
  apply Forall_forall. intros i Hi. apply elem_of_py_range in Hi.
  unfold py_index. cbn zeta. rewrite length_take, Nat.min_l by lia.
  destruct (decide (0 ≤ i)); [|lia]. destruct (decide (0 ≤ i)); [|lia].
  rewrite lookup_take_lt by lia. done.
Qed.

End WorkflowFacts.

#[export] Instance keeps_flag_preorder {Callback E : Type} :
  PreOrder (@keeps_flag Callback E).
Proof. split; [done|]. intros s1 s2 s3. unfold keeps_flag. congruence. Qed.

#[export] Instance quiet_preorder {Callback E : Type} :
  PreOrder (@quiet Callback E).
Proof.
  split; [done|]. intros s1 s2 s3 [? ?] [? ?]. split; congruence.
Qed.

#[export] Instance anything_preorder {Callback E : Type} :
  PreOrder (@anything Callback E).
Proof. split; done. Qed.

#[export] Instance keeps_data_preorder {Callback E : Type} :
  PreOrder (@keeps_data Callback E).
Proof. split; [done|]. intros s1 s2 s3. unfold keeps_data. congruence. Qed.

#[export] Instance keeps_results_preorder {Callback E : Type} :
  PreOrder (@keeps_results Callback E).
Proof.
  split; [done|]. intros s1 s2 s3 [H1 H2] [H3 H4]. split; congruence.
Qed.

Lemma listeners_ok_weaken {Callback E : Type}
    (invoke : Callback → gmap string Value → @State Callback E
              → Outcome Value * @State Callback E)
    (R R' : relation (@State Callback E)) :
  (∀ s s', R s s' → R' s s') → listeners_ok invoke R → listeners_ok invoke R'.
Proof.
  intros HR H cb p s. destruct (H cb p s) as (v & s' & Hi & Hs).
  exists v, s'. split; [done|]. by apply HR.
Qed.

Lemma listeners_ok_any {Callback E : Type}
    (invoke : Callback → gmap string Value → @State Callback E
              → Outcome Value * @State Callback E) R :
  listeners_ok invoke R → listeners_ok invoke anything.
Proof.
  intros H cb p s. destruct (H cb p s) as (v & s' & Hi & _). by exists v, s'.
Qed.


Section StepProperties.
Context {Callback E : Type}.
Variable invoke : Callback → gmap string Value → @State Callback E
                  → Outcome Value * @State Callback E.

Lemma errors_recorded_error (fails : list (PyExc * @State Callback E)) md :
  errors_recorded md fails !! "error"
  = match last fails with
    | Some x => Some (VStr (exc_str x.1))
    | None => md !! "error"
    end
  ∧ errors_recorded md fails !! "traceback"
  = match last fails with
    | Some x => Some (VStr (exc_traceback x.1))
    | None => md !! "traceback"
    end.
Proof.
  induction fails as [|x fails _] using rev_ind; [done|].
  unfold errors_recorded. rewrite foldl_app, last_snoc. simpl.
  unfold record_error. rewrite lookup_insert_ne by done.
  by rewrite !lookup_insert_eq.
Qed.

Lemma last_statuses_emission (t : list (@Call Callback)) cbs n p :
  last (statuses (t ++ emission cbs n p)) = Some (p !! "status").
Proof. by rewrite statuses_app, statuses_emission, last_snoc. Qed.

End StepProperties.

Section RetryCount.
Context {Callback E : Type}.
Variable invoke : Callback → gmap string Value → @State Callback E
                  → Outcome Value * @State Callback E.

(** C2, as amended. A step constructed from a mapping that binds
    [max_retries] to an integer [R], whose main operation raises on
    every invocation, run on a context that is not stopped, with
    pre-hooks that return and make no stop request and listeners that
    return, make no stop request and leave the results alone: [run]
    invokes the main operation exactly [max(R, 0) + 1] times (a negative
    budget counts as none), every attempt failing; it then sets the stop
    flag, stores under the step's identifier a record that carries the
    error and traceback of the last attempt, which is what the results
    hold when [run] returns, emits [failed] and returns [None]. *)
Theorem retry_count (nm : string) (main : @MainFunc Callback E) (l : loc)
    (sid : string) pre pre_kw post post_kw
    (h : gmap loc (gmap string Value)) (params : gmap string Value) (R : Z)
    (w : @World Callback E) :
  let self := (WorkflowStep_init nm main l sid pre pre_kw post post_kw h).1 in
  let h' := (WorkflowStep_init nm main l sid pre pre_kw post post_kw h).2 in
  h !! l = Some params →
  params !! "max_retries" = Some (VInt R) →
  heap w = h' →
  main_always_fails h' self →
  should_stop (context (st w)) = false →
  listeners_ok invoke keeps_results →
  Forall (hook_ok keeps_flag (pre_params self)) (pre_funcs self) →
  ∃ w' t md e,
    WorkflowStep_run invoke self w = (Normal VNone, w')
    ∧ trace w' = trace w ++ t
    ∧ Z.of_nat (length (main_calls t)) = Z.max R 0 + 1
    ∧ Forall (λ o, is_normal o = false) (main_outcomes t)
    ∧ last (main_outcomes t) = Some (Raise e)
    ∧ should_stop (context (st w')) = true
    ∧ stores t = [(sid, md)]
    ∧ get_step_result sid (context (st w')) = Some md
    ∧ md !! "error" = Some (VStr (exc_str e))
    ∧ md !! "traceback" = Some (VStr (exc_traceback e))
    ∧ last (statuses t) = Some (Some (VStr "failed")).
Proof.
  intros self h' Hl Hp Hw Haf Hstop Hlisteners Hpre.
  assert (Hmr : max_retries self = VInt R).
  { unfold self, WorkflowStep_init. cbn [fst max_retries]. rewrite Hl. simpl.
    by rewrite Hp. }
  assert (Hlf : listeners_ok invoke keeps_flag).
  { eapply listeners_ok_weaken; [|exact Hlisteners]. by intros s s' [H _]. }
  destruct (pre_phase_ok invoke keeps_flag Hlf (λ _ _ H, H) self Hpre w Hstop)
    as (md1 & pre' & w2 & -> & HR02 & Hh2 & Ht2 & _).
  unfold run_from_main, bind at 1.
  destruct (main_phase_ok invoke keeps_results anything Hlisteners (λ _ _ _, I)
              self h' (λ _, I) md1 w2)
    as (fails & om & w3 & Hrun & Hh3 & Hfails & Hcases).
  { congruence. }
  { intros Hnone. rewrite Hmr in Hnone. done. }
  rewrite Hrun.
  destruct Hcases as [(v & _ & _ & (s0 & s2 & Hs) & _)
                     |(e & s1 & -> & Hlen & _ & _ & Ht3 & HR3)].
  { destruct (Haf s0) as (? & ? & Hf). congruence. }
  cbn zeta in Ht3.
  set (md := record_error e (errors_recorded md1 fails)) in *.
  specialize (Hlen R). rewrite Hmr in Hlen. specialize (Hlen eq_refl).
  set (t := emission (subscribed "progress" (st w)) "progress" (started_payload self)
            ++ hook_trace self Pre (length (pre_funcs self))
            ++ flat_map (retry_block self (bound_params self h')) fails
            ++ [CallMain (step_id self) (bound_params self h') (Raise e)]
            ++ [Store (step_id self) md]
            ++ emission (subscribed "progress" (failed_state self md s1)) "progress"
                 (failed_payload self)).
  exists w3, t, md, e. split; [done|].
  split. { rewrite Ht3, Ht2. unfold t. by rewrite <- !app_assoc. }
  assert (Hmo : main_outcomes t = ((λ x, Raise x.1) <$> fails) ++ [Raise e]).
  { unfold t. autorewrite with trace. done. }
  split.
  { rewrite <- (length_fmap (λ x, x.2)). fold (main_outcomes t).
    rewrite Hmo, length_app, length_fmap, Hlen. simpl. lia. }
  split.
  { rewrite Hmo. apply Forall_app. split; [|by repeat constructor].
    apply Forall_fmap, Forall_forall. done. }
  split. { rewrite Hmo. by rewrite last_snoc. }
  destruct HR3 as [HR3 HR3d].
  split. { by rewrite HR3. }
  split. { unfold t. autorewrite with trace. done. }
  split.
  { unfold get_step_result. rewrite HR3d. simpl. by rewrite lookup_insert_eq. }
  split.
  { unfold md, record_error.
    rewrite lookup_insert_ne by done. by rewrite lookup_insert_eq. }
  split.
  { unfold md, record_error. by rewrite lookup_insert_eq. }
  unfold t. rewrite !app_assoc. apply last_statuses_emission.
Qed.

End RetryCount.

Section StepTheorems.
Context {Callback E : Type}.
Variable invoke : Callback → gmap string Value → @State Callback E
                  → Outcome Value * @State Callback E.

(** C3, as amended. The engine writes [error] and [traceback] at every
    failed attempt and never removes them. With hooks and listeners that
    return, leave the engine's fields alone and make no stop request, a
    run stores exactly one record, and that record carries the error and
    traceback of the last failed attempt: on terminal failure, and also
    when a later retry succeeded, next to the result. Only a run whose
    main operation never failed stores a record without them (unless the
    parameters themselves bind these names). *)
Theorem error_fields_persist (self : @WorkflowStep Callback E) (w : @World Callback E) :
  should_stop (context (st w)) = false →
  listeners_ok invoke keeps_flag →
  Forall (hook_ok keeps_flag (pre_params self)) (pre_funcs self) →
  Forall (hook_ok keeps_flag (post_params self)) (post_funcs self) →
  main_framed keeps_flag (main_func self) (bound_params self (heap w)) →
  budget_ok self (bound_params self (heap w)) →
  let kw := bound_params self (heap w) in
  ∃ o w' t md errs final,
    WorkflowStep_run invoke self w = (o, w')
    ∧ trace w' = trace w ++ t
    ∧ stores t = [(step_id self, md)]
    ∧ main_outcomes t = (Raise <$> errs) ++ [final]
    ∧ match final with
      | Normal v =>
          o = Normal v ∧ md !! "result" = Some v
          ∧ (md !! "error", md !! "traceback")
            = last_error errs (initial_metadata self kw)
      | Raise e =>
          o = Normal VNone
          ∧ md !! "error" = Some (VStr (exc_str e))
          ∧ md !! "traceback" = Some (VStr (exc_traceback e))
      end.
Proof.
  intros Hstop Hlisteners Hpre Hpost Hmain Hbudget kw.
  destruct (WorkflowStep_run_ok invoke keeps_flag Hlisteners (λ _ _ H, H) self (heap w)
              Hmain Hpre (λ _ _, Hpost) Hbudget w eq_refl Hstop) as (o & w' & Hrun & Hcases).
  destruct Hcases as [H|H].
  - destruct H as (fails & v & md & s1 & pre & post & -> & Hh & Hfails & _ & _
                   & HR1 & HR2 & Hcore & _ & _ & _ & _ & Ht').
    fold kw in Hcore, Ht'.
    eexists _, w', _, md, (fst <$> fails), (Normal v).
    split; [done|]. split; [exact Ht'|].
    split. { autorewrite with trace. done. }
    split. { autorewrite with trace. simpl. rewrite <- list_fmap_compose.
             rewrite ?app_nil_r. done. }
    split; [done|].
    split. { rewrite Hcore by in_list. by rewrite lookup_insert_eq. }
    rewrite !Hcore by in_list. rewrite !lookup_insert_ne by done.
    destruct (errors_recorded_error fails (initial_metadata self kw)) as [-> ->].
    unfold last_error. rewrite fmap_last. by destruct (last fails).
  - destruct H as (fails & e & md & s1 & pre & -> & Hh & Hfails & _ & _
                   & HR1 & HR2 & Hcore & _ & _ & Ht').
    fold kw in Hcore, Ht'.
    eexists _, w', _, md, (fst <$> fails), (Raise e).
    split; [done|]. split; [exact Ht'|].
    split. { autorewrite with trace. done. }
    split. { autorewrite with trace. simpl. rewrite <- list_fmap_compose. done. }
    split; [done|]. rewrite !Hcore by in_list. unfold record_error.
    rewrite lookup_insert_ne by done. by rewrite !lookup_insert_eq.
Qed.

Lemma emitted_retries (self : @WorkflowStep Callback E) kw
    (fails : list (PyExc * @State Callback E)) :
  emitted (flat_map (retry_block self kw) fails)
  = replicate (length fails) ("progress", retrying_payload self).
Proof.
  induction fails as [|x fails IH]; [done|]. cbn [flat_map].
  rewrite retry_block_eq, !emitted_app, emitted_emission, IH. done.
Qed.

Lemma notifications_retries (self : @WorkflowStep Callback E) kw cbs
    (fails : list (PyExc * @State Callback E)) :
  Forall (λ x, subscribed "progress" x.2 = cbs) fails →
  notifications (flat_map (retry_block self kw) fails)
  = flat_map (λ np, emission cbs np.1 np.2)
      (replicate (length fails) ("progress", retrying_payload self)).
Proof.
  induction 1 as [|x fails Hx _ IH]; [done|]. cbn [flat_map length replicate].
  rewrite retry_block_eq, !notifications_app, notifications_emission, IH, Hx. done.
Qed.

(** C5, as amended. A step run on a context that is not stopped, whose
    hooks and listeners return, whose hooks, main operation and
    listeners make no stop request and leave the listeners of [progress]
    as they are, and whose retry budget is a number (unless the main
    operation cannot fail): the events of the run are [started], one
    [retrying] per failed attempt that is not the last, then [completed]
    if the last attempt succeeded and [failed] if it did not; every
    event goes to the subscribed listeners in the order of their
    subscription. *)
Theorem event_order (self : @WorkflowStep Callback E) (w : @World Callback E) :
  should_stop (context (st w)) = false →
  listeners_ok invoke quiet →
  Forall (hook_ok quiet (pre_params self)) (pre_funcs self) →
  Forall (hook_ok quiet (post_params self)) (post_funcs self) →
  main_framed quiet (main_func self) (bound_params self (heap w)) →
  budget_ok self (bound_params self (heap w)) →
  ∃ o w' t errs final,
    WorkflowStep_run invoke self w = (o, w')
    ∧ trace w' = trace w ++ t
    ∧ main_outcomes t = (Raise <$> errs) ++ [final]
    ∧ statuses t
      = [Some (VStr "started")]
        ++ replicate (length errs) (Some (VStr "retrying"))
        ++ [Some (VStr (if is_normal final then "completed" else "failed"))]
    ∧ Forall (λ np, np.1 = "progress") (emitted t)
    ∧ notifications t
      = flat_map (λ np, emission (subscribed "progress" (st w)) np.1 np.2)
          (emitted t)
    ∧ ∀ cb (s : @State Callback E),
        subscribed "progress" (mkState (on "progress" cb (context s)) (ext s))
        = subscribed "progress" s ++ [cb].
Proof.
  intros Hstop Hlisteners Hpre Hpost Hmain Hbudget.
  assert (Hon : ∀ cb (s : @State Callback E),
            subscribed "progress" (mkState (on "progress" cb (context s)) (ext s))
            = subscribed "progress" s ++ [cb]).
  { intros cb s. unfold subscribed, on. simpl. by rewrite lookup_insert_eq. }
  destruct (WorkflowStep_run_ok invoke quiet Hlisteners (λ _ _ H, proj1 H) self (heap w)
              Hmain Hpre (λ _ _, Hpost) Hbudget w eq_refl Hstop) as (o & w' & Hrun & Hcases).
  destruct Hcases as [H|H].
  - destruct H as (fails & v & md & s1 & pre & post & -> & Hh & Hfails & _ & _
                   & HR1 & HR2 & Hcore & _ & _ & _ & _ & Ht').
    eexists _, w', _, (fst <$> fails), (Normal v).
    split; [done|]. split; [exact Ht'|].
    split. { autorewrite with trace. simpl. rewrite <- list_fmap_compose.
             rewrite ?app_nil_r. done. }
    split. { autorewrite with trace. simpl. rewrite length_fmap. done. }
    assert (Hsub : Forall (λ x, subscribed "progress" x.2 = subscribed "progress" (st w)) fails).
    { eapply Forall_impl; [exact Hfails|]. intros x [[_ Hx] _]. done. }
    assert (Hsub' : subscribed "progress" (stored_state self md s1)
                    = subscribed "progress" (st w)).
    { destruct HR1 as [_ H1]. done. }
    split.
    { rewrite !emitted_app, emitted_retries, !emitted_emission, emitted_hook_trace.
      simpl. rewrite emitted_hook_trace. simpl.
      constructor; [done|]. apply Forall_app. split; [|by repeat constructor].
      apply Forall_forall. intros x Hx. apply elem_of_replicate in Hx as [-> _]. done. }
    split; [|exact Hon].
    rewrite !emitted_app, emitted_retries, !emitted_emission, !emitted_hook_trace.
    rewrite !notifications_app, (notifications_retries _ _ _ _ Hsub),
      !notifications_emission, !notifications_hook_trace, Hsub'.
    simpl. rewrite flat_map_app. simpl. by rewrite ?app_nil_r.
  - destruct H as (fails & e & md & s1 & pre & -> & Hh & Hfails & _ & _
                   & HR1 & HR2 & Hcore & _ & _ & Ht').
    eexists _, w', _, (fst <$> fails), (Raise e).
    split; [done|]. split; [exact Ht'|].
    split. { autorewrite with trace. simpl. rewrite <- list_fmap_compose. done. }
    split. { autorewrite with trace. simpl. rewrite length_fmap. done. }
    assert (Hsub : Forall (λ x, subscribed "progress" x.2 = subscribed "progress" (st w)) fails).
    { eapply Forall_impl; [exact Hfails|]. intros x [[_ Hx] _]. done. }
    assert (Hsub' : subscribed "progress" (failed_state self md s1)
                    = subscribed "progress" (st w)).
    { destruct HR1 as [_ H1]. done. }
    split.
    { rewrite !emitted_app, emitted_retries, !emitted_emission, emitted_hook_trace.
      simpl.
      constructor; [done|]. apply Forall_app. split; [|by repeat constructor].
      apply Forall_forall. intros x Hx. apply elem_of_replicate in Hx as [-> _]. done. }
    split; [|exact Hon].
    rewrite !emitted_app, emitted_retries, !emitted_emission, !emitted_hook_trace.
    rewrite !notifications_app, (notifications_retries _ _ _ _ Hsub),
      !notifications_emission, !notifications_hook_trace, Hsub'.
    simpl. rewrite flat_map_app. simpl. by rewrite ?app_nil_r.
Qed.

End StepTheorems.

Section StopFlag.
Context {Callback E : Type}.
Variable invoke : Callback → gmap string Value → @State Callback E
                  → Outcome Value * @State Callback E.

(** C10. From the start of the main phase of a step without post-hooks,
    whatever the main operation and the listeners do to the stop flag
    (the only requirement is that listeners return): the attempts go on
    until one succeeds or the retry budget is used up; after a success
    the record is stored, [completed] is emitted and the result is
    returned, stop flag or not. The record stored is the one the results
    hold under the step's identifier when the step returns, provided the
    listeners leave the results alone. A flag left set takes effect in
    [Workflow.run], which starts none of the remaining steps. *)
Theorem stop_flag_not_read_in_main_phase (self : @WorkflowStep Callback E)
    (md : gmap string Value) (n : Z) (w : @World Callback E) :
  post_funcs self = [] →
  py_int (max_retries self) = Some n →
  listeners_ok invoke anything →
  ∃ o w' t md' errs final,
    run_from_main invoke self md w = (o, w')
    ∧ trace w' = trace w ++ t
    ∧ main_outcomes t = (Raise <$> errs) ++ [final]
    ∧ stores t = [(step_id self, md')]
    ∧ (listeners_ok invoke keeps_data →
       get_step_result (step_id self) (context (st w')) = Some md')
    ∧ match final with
      | Normal v =>
          (length errs ≤ Z.to_nat n)%nat ∧ o = Normal v
          ∧ md' !! "result" = Some v
          ∧ last (statuses t) = Some (Some (VStr "completed"))
      | Raise e =>
          length errs = Z.to_nat n ∧ o = Normal VNone
          ∧ md' !! "error" = Some (VStr (exc_str e))
          ∧ last (statuses t) = Some (Some (VStr "failed"))
      end
    ∧ ∀ steps i rest,
        should_stop (context (st w')) = true →
        Forall (in_range steps) rest →
        run_loop invoke steps rest (advance i w') = (Normal tt, advance i w').
Proof.
  intros Hpost Hn Hlisteners.
  set (Rl := λ s s' : @State Callback E,
               listeners_ok invoke keeps_data → keeps_data s s').
  assert (HRl : PreOrder Rl).
  { split; [by intros s _|]. intros s1 s2 s3 H1 H2 Hl. by etrans; [apply H1|apply H2]. }
  assert (Hlisteners' : listeners_ok invoke Rl).
  { intros cb p s. destruct (Hlisteners cb p s) as (v & s' & Hi & _).
    exists v, s'. split; [done|]. intros Hl.
    destruct (Hl cb p s) as (v2 & s2 & Hi2 & Hk). congruence. }
  unfold run_from_main, bind at 1.
  destruct (main_phase_ok invoke Rl anything Hlisteners' (λ _ _ _, I)
              self (heap w) (λ _, I) md w eq_refl)
    as (fails & om & w3 & Hrun & Hh3 & Hfails & Hcases).
  { intros Hnone. congruence. }
  rewrite Hrun.
  assert (Hloop : ∀ w' steps i rest,
            should_stop (context (st w')) = true →
            Forall (in_range steps) rest →
            run_loop invoke steps rest (advance i w') = (Normal tt, advance i w')).
  { intros w' steps i rest Hs Hin. by apply run_loop_stopped. }
  destruct Hcases as [(v & -> & Hlen & _ & Ht3 & _)
                     |(e & s1 & -> & Hlen & _ & _ & Ht3 & HR3)].
  - rewrite Hpost. cbn [run_hooks]. unfold bind at 1, ret at 1.
    unfold bind at 1, log. cbn [trace st heap]. unfold bind at 1, modify_context.
    cbn [trace st heap]. unfold bind at 1.
    match goal with |- context [emit_event invoke ?n ?p ?w0] =>
      destruct (emit_event_ok invoke Rl Hlisteners' n p w0)
        as (w5 & Hemit5 & HR5 & Hh5 & Ht5) end.
    rewrite Hemit5. rewrite lookup_insert_ne by done. rewrite lookup_insert_eq.
    cbn [trace st heap] in Ht5. rewrite Ht3 in Ht5.
    eexists _, w5, _, _, (fst <$> fails), (Normal v).
    split; [reflexivity|].
    split. { rewrite Ht5, <- !app_assoc. reflexivity. }
    split. { autorewrite with trace. simpl. rewrite <- list_fmap_compose.
             rewrite ?app_nil_r. done. }
    split. { autorewrite with trace. reflexivity. }
    split.
    { intros Hl. unfold get_step_result. rewrite (HR5 Hl). simpl.
      by rewrite lookup_insert_eq. }
    split; [|by apply Hloop].
    split. { rewrite length_fmap. by apply Hlen. }
    split; [done|].
    split. { rewrite lookup_insert_ne by done. by rewrite lookup_insert_eq. }
    rewrite !app_assoc. apply last_statuses_emission.
  - cbn zeta in Ht3.
    eexists _, w3, _, _, (fst <$> fails), (Raise e).
    split; [reflexivity|].
    split. { rewrite Ht3. reflexivity. }
    split. { autorewrite with trace. simpl. rewrite <- list_fmap_compose. done. }
    split. { autorewrite with trace. reflexivity. }
    split.
    { intros Hl. unfold get_step_result. rewrite (HR3 Hl). simpl.
      by rewrite lookup_insert_eq. }
    split; [|by apply Hloop].
    split. { rewrite length_fmap. by apply Hlen. }
    split; [done|].
    split. { unfold record_error. rewrite lookup_insert_ne by done.
             by rewrite lookup_insert_eq. }
    rewrite !app_assoc. apply last_statuses_emission.
Qed.

End StopFlag.

(** ** How failures are reported *)

Section Reporting.
Context {Callback E : Type}.
Variable invoke : Callback → gmap string Value → @State Callback E
                  → Outcome Value * @State Callback E.
Hypothesis Hlisteners : listeners_ok invoke keeps_results.

Lemma listeners_keep_flag : listeners_ok invoke keeps_flag.
Proof. eapply listeners_ok_weaken; [|exact Hlisteners]. by intros s s' [H _]. Qed.

(** One step, run by well-behaved callables: it returns, and a terminal
    failure of its main operation shows in the flag, in the results and
    in the last event. *)
Lemma step_reports self (w : @World Callback E) :
  should_stop (context (st w)) = false →
  step_keeps_flag (heap w) self →
  ∃ o w' t,
    WorkflowStep_run invoke self w = (Normal o, w') ∧ heap w' = heap w
    ∧ trace w' = trace w ++ t
    ∧ ((∃ v, last (main_outcomes t) = Some (Normal v)
             ∧ should_stop (context (st w')) = false
             ∧ last (emitted t) = Some ("progress", completed_payload self))
       ∨ (∃ e md, last (main_outcomes t) = Some (Raise e)
             ∧ o = VNone
             ∧ should_stop (context (st w')) = true
             ∧ get_step_result (step_id self) (context (st w')) = Some md
             ∧ md !! "error" = Some (VStr (exc_str e))
             ∧ md !! "traceback" = Some (VStr (exc_traceback e))
             ∧ last (emitted t) = Some ("progress", failed_payload self))).
Proof.
  intros Hstop (Hpre & Hpost & Hmain & Hbudget).
  pose proof listeners_keep_flag as Hlf.
  destruct (pre_phase_ok invoke keeps_flag Hlf (λ _ _ H, H) self Hpre w Hstop)
    as (md1 & pre' & w2 & -> & HR02 & Hh2 & Ht2 & _).
  unfold run_from_main, bind at 1.
  destruct (main_phase_ok invoke keeps_results keeps_flag Hlisteners
              (λ _ _ H, proj1 H) self (heap w) Hmain md1 w2 Hh2 Hbudget)
    as (fails & om & w3 & -> & Hh3 & Hfails & Hcases).
  destruct Hcases as [(v & -> & _ & _ & Ht3 & HR3)
                     |(e & s1 & -> & _ & _ & _ & Ht3 & HR3)].
  - unfold bind at 1.
    match goal with |- context [run_hooks Post ?key self ?p ?fs 0 ?md w3] =>
      destruct (run_hooks_ok keeps_flag (λ _ _ H, H) Post key self p fs 0 md [] w3 Hpost)
        as (md3 & post & w4 & -> & HR4 & Hh4 & Ht4 & _ & _ & Hkeep3) end.
    { unfold keeps_flag in *. congruence. }
    { in_list. }
    { by rewrite lookup_insert_eq. }
    change (trace w4 = trace w3 ++ hook_trace self Post (length (post_funcs self))) in Ht4.
    unfold bind at 1, log. simpl. unfold bind at 1, modify_context. simpl.
    unfold bind at 1.
    match goal with |- context [emit_event invoke ?n ?p ?w0] =>
      destruct (emit_event_ok invoke keeps_flag Hlf n p w0)
        as (w5 & -> & HR5 & Hh5 & Ht5) end.
    rewrite Hkeep3; [|in_list|done].
    rewrite lookup_insert_ne by done. rewrite lookup_insert_eq.
    cbn [trace st heap] in Ht5, HR5, Hh5.
    exists v, w5,
      (emission (subscribed "progress" (st w)) "progress" (started_payload self)
       ++ hook_trace self Pre (length (pre_funcs self))
       ++ flat_map (retry_block self (bound_params self (heap w))) fails
       ++ [CallMain (step_id self) (bound_params self (heap w)) (Normal v)]
       ++ hook_trace self Post (length (post_funcs self))
       ++ [Store (step_id self) md3]
       ++ emission (subscribed "progress" (stored_state self md3 (st w4)))
            "progress" (completed_payload self)).
    split; [done|]. split; [congruence|].
    split. { rewrite Ht5, Ht4, Ht3, Ht2. by rewrite <- !app_assoc. }
    left. exists v.
    split. { autorewrite with trace. simpl. rewrite ?app_nil_r. apply last_snoc. }
    split. { unfold keeps_flag in *. simpl in *. congruence. }
    rewrite !app_assoc, emitted_app, emitted_emission. apply last_snoc.
  - cbn zeta in Ht3.
    set (md := record_error e (errors_recorded md1 fails)) in *.
    exists VNone, w3,
      (emission (subscribed "progress" (st w)) "progress" (started_payload self)
       ++ hook_trace self Pre (length (pre_funcs self))
       ++ flat_map (retry_block self (bound_params self (heap w))) fails
       ++ [CallMain (step_id self) (bound_params self (heap w)) (Raise e)]
       ++ [Store (step_id self) md]
       ++ emission (subscribed "progress" (failed_state self md s1))
            "progress" (failed_payload self)).
    split; [done|]. split; [congruence|].
    split. { rewrite Ht3, Ht2. by rewrite <- !app_assoc. }
    right. exists e, md. destruct HR3 as [HR3 HR3d].
    split. { autorewrite with trace. simpl. apply last_snoc. }
    split; [done|].
    split. { by rewrite HR3. }
    split. { unfold get_step_result. rewrite HR3d. simpl. by rewrite lookup_insert_eq. }
    split. { unfold md, record_error. rewrite lookup_insert_ne by done.
             by rewrite lookup_insert_eq. }
    split. { unfold md, record_error. by rewrite lookup_insert_eq. }
    rewrite !app_assoc, emitted_app, emitted_emission. apply last_snoc.
Qed.

Lemma main_outcomes_cons_RunStep i (t : list (@Call Callback)) :
  main_outcomes (RunStep i :: t) = main_outcomes t.
Proof. reflexivity. Qed.

Lemma emitted_cons_RunStep i (t : list (@Call Callback)) :
  emitted (RunStep i :: t) = emitted t.
Proof. reflexivity. Qed.

(** The loop of [Workflow.run] over well-behaved steps: it returns, and
    when the last call of a main operation raised, the step that made it
    is the last one invoked and its failure is on record. *)
Lemma run_loop_reports steps indices (w : @World Callback E) :
  should_stop (context (st w)) = false →
  Forall (in_range steps) indices →
  Forall (step_keeps_flag (heap w)) steps →
  ∃ w' t,
    run_loop invoke steps indices w = (Normal tt, w') ∧ heap w' = heap w
    ∧ trace w' = trace w ++ t
    ∧ match last (main_outcomes t) with
      | Some (Raise e) =>
          should_stop (context (st w')) = true
          ∧ ∃ i self md,
              last (step_runs t) = Some i
              ∧ steps !! Z.to_nat i = Some self
              ∧ get_step_result (step_id self) (context (st w')) = Some md
              ∧ md !! "error" = Some (VStr (exc_str e))
              ∧ md !! "traceback" = Some (VStr (exc_traceback e))
              ∧ last (emitted t) = Some ("progress", failed_payload self)
      | _ => should_stop (context (st w')) = false
      end.
Proof.
  intros Hstop Hin. revert w Hstop.
  induction Hin as [|i rest Hi Hrest IH]; intros w Hstop Hsteps.
  - exists w, []. rewrite app_nil_r. done.
  - destruct (py_index_in_range steps i Hi) as (step & Hlook & Hx).
    rewrite run_loop_cons. unfold bind at 1, lift. rewrite Hx.
    unfold bind at 1, get_context. simpl. rewrite Hstop.
    unfold bind at 1, log. simpl. unfold bind at 1.
    match goal with |- context [WorkflowStep_run invoke step ?w0] =>
      destruct (step_reports step w0 Hstop)
        as (o & w1 & t1 & Hrun & Hh1 & Ht1 & Hcases) end.
    { eapply Forall_lookup_1; eauto. }
    rewrite Hrun. simpl in Hh1, Ht1.
    destruct (WorkflowStep_run_no_RunStep _ _ _ _ _ Hrun) as (t1' & Ht1' & Hr1).
    rewrite Ht1 in Ht1'. apply app_inv_head in Ht1'. subst t1'.
    unfold bind at 1, modify_context. simpl.
    destruct Hcases as [(v & Hlast & Hs1 & _)|(e & md & Hlast & -> & Hs1 & Hget & He & Htb & Hem)].
    + match goal with |- context [run_loop invoke steps rest ?w0] =>
        destruct (IH w0) as (w' & t2 & Hloop & Hh' & Ht' & Hrep) end.
      { done. }
      { simpl. by rewrite Hh1. }
      rewrite Hloop. simpl in Hh', Ht'.
      exists w', (RunStep i :: t1 ++ t2).
      split; [done|]. split; [congruence|].
      split. { rewrite Ht', Ht1. simpl. by rewrite <- !app_assoc. }
      rewrite main_outcomes_cons_RunStep, main_outcomes_app, last_app.
      destruct (last (main_outcomes t2)) as [[v2|e2]|] eqn:Hl2; [done| |by rewrite Hlast].
      destruct Hrep as (Hs' & i2 & self2 & md2 & Hruns2 & Hrest2).
      split; [done|]. exists i2, self2, md2.
      split.
      { change (step_runs (RunStep i :: t1 ++ t2)) with (i :: step_runs (t1 ++ t2)).
        rewrite step_runs_app, Hr1. simpl.
        destruct (step_runs t2); [done|]. by rewrite last_cons, Hruns2. }
      destruct Hrest2 as (? & ? & ? & ? & Hem2).
      repeat (split; [done|]).
      rewrite emitted_cons_RunStep, emitted_app, last_app. by rewrite Hem2.
    + rewrite run_loop_stopped; [|done|done].
      eexists _, (RunStep i :: t1).
      split; [done|]. split; [done|].
      split. { simpl. rewrite Ht1. simpl. by rewrite <- app_assoc. }
      rewrite main_outcomes_cons_RunStep, Hlast.
      split; [done|]. exists i, step, md.
      split.
      { change (step_runs (RunStep i :: t1)) with (i :: step_runs t1).
        by rewrite Hr1. }
      repeat (split; [done|]). by rewrite emitted_cons_RunStep.
Qed.

End Reporting.

Section Propagation.
Context {Callback E : Type}.
Variable invoke : Callback → gmap string Value → @State Callback E
                  → Outcome Value * @State Callback E.

Lemma run_loop_app_continue steps is1 is2 (w w1 : @World Callback E) :
  run_loop invoke steps is1 w = (Normal tt, w1) →
  should_stop (context (st w1)) = false →
  run_loop invoke steps (is1 ++ is2) w = run_loop invoke steps is2 w1.
Proof.
  revert w. induction is1 as [|i rest IH]; intros w Hrun Hstop.
  - by injection Hrun as ->.
  - rewrite <- app_comm_cons, run_loop_cons. rewrite run_loop_cons in Hrun.
    unfold bind, lift, get_context, log, modify_context in *.
    destruct (py_index steps i) as [step|e]; [|done].
    destruct (should_stop (context (st w))) eqn:Hs.
    { injection Hrun as <-. congruence. }
    destruct (WorkflowStep_run invoke step _) as [[v|e] w2]; [|done].
    by apply IH.
Qed.

Lemma py_index_take {A} (l : list A) (k : nat) i :
  0 ≤ i < Z.of_nat k → (k ≤ length l)%nat → py_index (take k l) i = py_index l i.
Proof.
  intros Hi Hk. unfold py_index. cbn zeta. rewrite length_take.
  destruct (decide (0 ≤ i)); [|lia].
  destruct (decide (0 ≤ i)); [|lia].
  by rewrite lookup_take_lt by lia.
Qed.

(** An exception that leaves a step leaves [Workflow.run], whichever
    step of the run it is: the steps before it are the run of the
    workflow cut before that step. *)
Lemma Workflow_run_propagates_from steps (k : nat) step e (w w1 w' : @World Callback E) :
  0 ≤ current_step_index (context (st w)) ≤ Z.of_nat k →
  steps !! k = Some step →
  Workflow_run invoke (take k steps) w = (Normal tt, w1) →
  should_stop (context (st w1)) = false →
  WorkflowStep_run invoke step
    (mkWorld (st w1) (heap w1) (trace w1 ++ [RunStep (Z.of_nat k)])) = (Raise e, w') →
  Workflow_run invoke steps w = (Raise e, w').
Proof.
  intros Hc Hstep Hprefix Hstop Hrun.
  assert (Hlt : (k < length steps)%nat) by (by eapply lookup_lt_Some).
  rewrite Workflow_run_eq in *.
  rewrite length_take, Nat.min_l in Hprefix by lia.
  rewrite (run_loop_ext invoke (take k steps) steps) in Hprefix.
  2:{ apply Forall_forall. intros i Hi. apply elem_of_py_range in Hi.
      apply py_index_take; lia. }
  rewrite (py_range_app _ (Z.of_nat k)) by lia.
  rewrite (run_loop_app_continue _ _ _ _ _ Hprefix Hstop).
  rewrite py_range_cons by lia.
  rewrite run_loop_cons. unfold bind at 1, lift.
  rewrite (py_index_nat _ _ _ Hstep). unfold bind at 1, get_context. simpl.
  rewrite Hstop. unfold bind at 1, log. simpl. unfold bind at 1. by rewrite Hrun.
Qed.

End Propagation.

Section Exceptions.
Context {Callback E : Type}.
Variable invoke : Callback → gmap string Value → @State Callback E
                  → Outcome Value * @State Callback E.

Lemma run_hooks_any ph key self params fs k md l (w : @World Callback E) :
  Forall (hook_ok anything params) fs →
  key ∈ reserved_keys →
  md !! key = Some (VList l) →
  ∃ r w',
    run_hooks ph key self params fs k md w = (Normal r, w')
    ∧ heap w' = heap w
    ∧ ∀ md', r = Some md' →
        ∀ k', k' ∈ reserved_keys → k' ≠ key → md' !! k' = md !! k'.
Proof.
  intros Hfs. revert k md l w.
  induction Hfs as [|f fs Hf _ IH]; intros k md l w Hkey Hmd; simpl.
  - exists (Some md), w. split; [done|]. split; [done|]. by intros md' [= <-].
  - destruct (Hf md (st w)) as (v & md1 & s1 & Hcall & _ & Hkeep).
    unfold bind at 1, log; simpl. unfold bind at 1, call; simpl. rewrite Hcall.
    unfold bind at 1, lift; simpl.
    unfold py_append. rewrite (Hkeep key Hkey), Hmd.
    unfold bind at 1, lift; simpl. unfold bind at 1, get_context; simpl.
    destruct (should_stop (context s1)).
    { eexists None, _. split; [reflexivity|]. done. }
    set (md2 := <[key := VList (l ++ [v])]> md1).
    destruct (IH (S k) md2 (l ++ [v]) (mkWorld s1 (heap w) (trace w ++ [CallHook ph (step_id self) k])))
      as (r & w' & Hrun & Hh & Hother); [done| |].
    { unfold md2. by rewrite lookup_insert_eq. }
    exists r, w'. split; [done|]. split; [done|].
    intros md' Hr k' Hk' Hne. rewrite (Hother md' Hr k' Hk' Hne). unfold md2.
    rewrite lookup_insert_ne by done. by apply Hkeep.
Qed.

Lemma WorkflowStep_run_returns self (w : @World Callback E) :
  listeners_ok invoke anything → step_hooks_return (heap w) self →
  ∃ v w', WorkflowStep_run invoke self w = (Normal v, w') ∧ heap w' = heap w.
Proof.
  intros Hlisteners (Hpre & Hpost & Hbudget). unfold WorkflowStep_run.
  unfold bind at 1, get_context. simpl.
  destruct (should_stop (context (st w))); [by eexists _, _|].
  unfold bind at 1, read_mapping. simpl. unfold bind at 1.
  destruct (emit_event_ok invoke anything Hlisteners "progress" (started_payload self) w)
    as (w1 & -> & _ & Hh1 & _). unfold bind at 1.
  match goal with |- context [run_hooks Pre ?key self ?p ?fs 0 ?md w1] =>
    destruct (run_hooks_any Pre key self p fs 0 md [] w1 Hpre) as (r & w2 & -> & Hh2 & _) end.
  { in_list. }
  { by rewrite lookup_insert_eq. }
  destruct r as [md1|]; [|eexists _, _; split; [done|congruence]].
  unfold run_from_main, bind at 1.
  destruct (main_phase_ok invoke anything anything Hlisteners (λ _ _ H, H)
              self (heap w) (λ _, I) md1 w2 ltac:(congruence) Hbudget)
    as (fails & om & w3 & -> & Hh3 & _ & Hcases).
  destruct Hcases as [(v & -> & _)|(e & s1 & -> & _)]; [|by eexists _, _].
  unfold bind at 1.
  match goal with |- context [run_hooks Post ?key self ?p ?fs 0 ?md w3] =>
    destruct (run_hooks_any Post key self p fs 0 md [] w3 Hpost) as (r & w4 & -> & Hh4 & Hkeep) end.
  { in_list. }
  { by rewrite lookup_insert_eq. }
  destruct r as [md2|]; [|eexists _, _; split; [done|congruence]].
  unfold bind at 1, log. simpl. unfold bind at 1, modify_context. simpl.
  unfold bind at 1.
  match goal with |- context [emit_event invoke ?n ?p ?w0] =>
    destruct (emit_event_ok invoke anything Hlisteners n p w0) as (w5 & -> & _ & Hh5 & _) end.
  rewrite (Hkeep md2 eq_refl "result"); [|in_list|done].
  rewrite lookup_insert_ne by done. rewrite lookup_insert_eq.
  eexists _, _. split; [done|]. simpl in Hh5. congruence.
Qed.

Lemma run_loop_returns steps indices (w : @World Callback E) :
  listeners_ok invoke anything →
  Forall (step_hooks_return (heap w)) steps →
  Forall (in_range steps) indices →
  ∃ w', run_loop invoke steps indices w = (Normal tt, w').
Proof.
  intros Hlisteners Hsteps Hin. revert w Hsteps.
  induction Hin as [|i rest Hi _ IH]; intros w Hsteps; [by eexists|].
  destruct (py_index_in_range steps i Hi) as (step & Hlook & Hx).
  rewrite run_loop_cons. unfold bind at 1, lift. rewrite Hx.
  unfold bind at 1, get_context. simpl.
  destruct (should_stop (context (st w))); [by eexists|].
  unfold bind at 1, log. simpl. unfold bind at 1.
  match goal with |- context [WorkflowStep_run invoke step ?w0] =>
    destruct (WorkflowStep_run_returns step w0 Hlisteners) as (v & w1 & -> & Hh1) end.
  { eapply Forall_lookup_1; eauto. }
  unfold bind at 1, modify_context. simpl. apply IH. simpl. by rewrite Hh1.
Qed.

Lemma run_hooks_raise ph key self params oks f rest e k md l (w : @World Callback E) :
  Forall (hook_ok keeps_flag params) oks →
  hook_raises params f e →
  should_stop (context (st w)) = false →
  key ∈ reserved_keys →
  md !! key = Some (VList l) →
  ∃ w', run_hooks ph key self params (oks ++ f :: rest) k md w = (Raise e, w').
Proof.
  intros Hoks Hf. revert k md l w.
  induction Hoks as [|g oks Hg _ IH]; intros k md l w Hstop Hkey Hmd; simpl.
  - destruct (Hf md (st w)) as (md' & s' & Hcall).
    unfold bind at 1, log; simpl. unfold bind at 1, call; simpl. rewrite Hcall.
    unfold bind at 1, lift; simpl. by eexists.
  - destruct (Hg md (st w)) as (v & md1 & s1 & Hcall & HR & Hkeep).
    unfold bind at 1, log; simpl. unfold bind at 1, call; simpl. rewrite Hcall.
    unfold bind at 1, lift; simpl.
    unfold py_append. rewrite (Hkeep key Hkey), Hmd.
    unfold bind at 1, lift; simpl. unfold bind at 1, get_context; simpl.
    unfold keeps_flag in HR. rewrite HR, Hstop.
    eapply IH; [simpl; congruence|done|]. by rewrite lookup_insert_eq.
Qed.

Lemma pre_hook_exception self oks f rest e (w : @World Callback E) :
  should_stop (context (st w)) = false →
  listeners_ok invoke keeps_flag →
  pre_funcs self = oks ++ f :: rest →
  Forall (hook_ok keeps_flag (pre_params self)) oks →
  hook_raises (pre_params self) f e →
  ∃ w', WorkflowStep_run invoke self w = (Raise e, w').
Proof.
  intros Hstop Hlisteners Hpre Hoks Hf. unfold WorkflowStep_run.
  unfold bind at 1, get_context. simpl. rewrite Hstop.
  unfold bind at 1, read_mapping. simpl. unfold bind at 1.
  destruct (emit_event_ok invoke keeps_flag Hlisteners "progress" (started_payload self) w)
    as (w1 & -> & HR1 & _). unfold bind at 1. rewrite Hpre.
  match goal with |- context [run_hooks Pre ?key self ?p _ 0 ?md w1] =>
    destruct (run_hooks_raise Pre key self p oks f rest e 0 md [] w1 Hoks Hf)
      as (w2 & ->) end.
  { unfold keeps_flag in HR1. congruence. }
  { in_list. }
  { by rewrite lookup_insert_eq. }
  by eexists.
Qed.

Lemma post_hook_exception self oks f rest e (w : @World Callback E) :
  should_stop (context (st w)) = false →
  listeners_ok invoke keeps_flag →
  Forall (hook_ok keeps_flag (pre_params self)) (pre_funcs self) →
  main_framed keeps_flag (main_func self) (bound_params self (heap w)) →
  main_never_fails (heap w) self →
  post_funcs self = oks ++ f :: rest →
  Forall (hook_ok keeps_flag (post_params self)) oks →
  hook_raises (post_params self) f e →
  ∃ w', WorkflowStep_run invoke self w = (Raise e, w').
Proof.
  intros Hstop Hlisteners Hpre Hmain Hnf Hpost Hoks Hf.
  destruct (pre_phase_ok invoke keeps_flag Hlisteners (λ _ _ H, H) self Hpre w Hstop)
    as (md1 & pre' & w2 & -> & HR02 & Hh2 & _).
  unfold run_from_main, bind at 1.
  destruct (main_phase_ok invoke keeps_flag keeps_flag Hlisteners (λ _ _ H, H)
              self (heap w) Hmain md1 w2 Hh2)
    as (fails & om & w3 & -> & _ & _ & Hcases).
  { intros _. exact Hnf. }
  destruct Hcases as [(v & -> & _ & _ & _ & HR3)|(e' & s1 & _ & _ & _ & [s0 Hs] & _)].
  2:{ destruct (Hnf s0) as (? & ? & Hn).
      simpl in Hs. congruence. }
  unfold bind at 1. rewrite Hpost.
  match goal with |- context [run_hooks Post ?key self ?p _ 0 ?md w3] =>
    destruct (run_hooks_raise Post key self p oks f rest e 0 md [] w3 Hoks Hf)
      as (w4 & ->) end.
  { unfold keeps_flag in *. congruence. }
  { in_list. }
  { by rewrite lookup_insert_eq. }
  by eexists.
Qed.

(** C4. Whatever the main operations do, including raising on every
    attempt, [Workflow.run] returns normally as long as hooks and
    listeners return and retry budgets are numbers. With hooks, main
    operations and listeners that make no stop request, and listeners
    that leave the results alone, a terminal failure of a main operation
    shows in the state and the events only: the stop flag is set, the
    results hold the record of the failed step, the last one invoked,
    with the error and traceback of that last call, and the last event
    is its [failed]; without such a failure the flag stays clear. An
    exception raised by a pre-hook or by a post-hook leaves
    [WorkflowStep.run] as it is, and [Workflow.run] passes on the
    exception that leaves a step, whichever step of the run it is. *)
Theorem exception_boundary :
  (∀ steps (w : @World Callback E),
      listeners_ok invoke anything →
      Forall (step_hooks_return (heap w)) steps →
      0 ≤ current_step_index (context (st w)) →
      ∃ w', Workflow_run invoke steps w = (Normal tt, w'))
  ∧ (∀ steps (w : @World Callback E),
      listeners_ok invoke keeps_results →
      Forall (step_keeps_flag (heap w)) steps →
      should_stop (context (st w)) = false →
      0 ≤ current_step_index (context (st w)) →
      ∃ w' t,
        Workflow_run invoke steps w = (Normal tt, w')
        ∧ trace w' = trace w ++ t
        ∧ match last (main_outcomes t) with
          | Some (Raise e) =>
              should_stop (context (st w')) = true
              ∧ ∃ i self md,
                  last (step_runs t) = Some i
                  ∧ steps !! Z.to_nat i = Some self
                  ∧ get_step_result (step_id self) (context (st w')) = Some md
                  ∧ md !! "error" = Some (VStr (exc_str e))
                  ∧ md !! "traceback" = Some (VStr (exc_traceback e))
                  ∧ last (emitted t) = Some ("progress", failed_payload self)
          | _ => should_stop (context (st w')) = false
          end)
  ∧ (∀ self oks f rest e (w : @World Callback E),
      should_stop (context (st w)) = false →
      listeners_ok invoke keeps_flag →
      pre_funcs self = oks ++ f :: rest →
      Forall (hook_ok keeps_flag (pre_params self)) oks →
      hook_raises (pre_params self) f e →
      ∃ w', WorkflowStep_run invoke self w = (Raise e, w'))
  ∧ (∀ self oks f rest e (w : @World Callback E),
      should_stop (context (st w)) = false →
      listeners_ok invoke keeps_flag →
      Forall (hook_ok keeps_flag (pre_params self)) (pre_funcs self) →
      main_framed keeps_flag (main_func self) (bound_params self (heap w)) →
      main_never_fails (heap w) self →
      post_funcs self = oks ++ f :: rest →
      Forall (hook_ok keeps_flag (post_params self)) oks →
      hook_raises (post_params self) f e →
      ∃ w', WorkflowStep_run invoke self w = (Raise e, w'))
  ∧ (∀ steps (k : nat) step e (w w1 w' : @World Callback E),
      0 ≤ current_step_index (context (st w)) ≤ Z.of_nat k →
      steps !! k = Some step →
      Workflow_run invoke (take k steps) w = (Normal tt, w1) →
      should_stop (context (st w1)) = false →
      WorkflowStep_run invoke step
        (mkWorld (st w1) (heap w1) (trace w1 ++ [RunStep (Z.of_nat k)])) = (Raise e, w') →
      Workflow_run invoke steps w = (Raise e, w')).
Proof.
  split; [|split; [|split; [|split]]].
  - intros steps w Hl Hs Hc. rewrite Workflow_run_eq.
    apply run_loop_returns; [done|done|]. by apply in_range_py_range.
  - intros steps w Hl Hs Hstop Hc. rewrite Workflow_run_eq.
    destruct (run_loop_reports invoke Hl steps
                (py_range (current_step_index (context (st w)))
                   (Z.of_nat (length steps))) w Hstop)
      as (w' & t & Hrun & _ & Ht & Hrep); [by apply in_range_py_range|done|].
    by exists w', t.
  - intros. by eapply pre_hook_exception.
  - intros. by eapply post_hook_exception.
  - intros. by eapply Workflow_run_propagates_from.
Qed.

End Exceptions.

Section Resume.
Context {Callback E : Type}.
Variable invoke : Callback → gmap string Value → @State Callback E
                  → Outcome Value * @State Callback E.

(** C6, as amended. From a context with resume cursor [c], [Workflow.run]
    invokes [run] on the steps at indices [c], [c+1], ... in list order
    and on no index below [c]; it goes on to the end of the list unless
    it finds the stop flag set before a step (a failed step or a stop
    request ends the run early) or an exception leaves a step. *)
Theorem resume_from_cursor steps (w : @World Callback E) :
  let c := current_step_index (context (st w)) in
  let n := Z.of_nat (length steps) in
  let r := Workflow_run invoke steps w in
  ∃ t,
    trace r.2 = trace w ++ t
    ∧ step_runs t `prefix_of` py_range c n
    ∧ Forall (λ i, c ≤ i < n) (step_runs t)
    ∧ (step_runs t = py_range c n
       ∨ should_stop (context (st r.2)) = true
       ∨ ∃ e, r.1 = Raise e).
Proof.
  intros c n r.
  destruct (Workflow_run invoke steps w) as [o w'] eqn:Hrun. subst r. simpl.
  rewrite Workflow_run_eq in Hrun. fold c n in Hrun.
  destruct (run_loop_step_runs invoke steps _ w o w' Hrun) as (t & Ht & Hpre & Hall).
  exists t. split; [done|]. split; [done|]. split.
  - apply Forall_forall. intros i Hi. apply elem_of_py_range.
    destruct Hpre as [k ->]. apply elem_of_app. by left.
  - destruct o as [[]|e]; [|right; right; by exists e].
    destruct (should_stop (context (st w'))) eqn:Hs; [by right; left|].
    left. by apply Hall.
Qed.

End Resume.

Section ObjectStore.
Context {Callback : Type}.

(** C8. [get_object] after [set_object] returns the stored value;
    after [remove_object] it returns [None]; [get_object] and
    [remove_object] return normally for every key, present or absent,
    and on an absent key they return [None] and change nothing. *)
Theorem object_store_round_trip (c : @WorkflowContext Callback) (k : string) (v : Value) :
  (∃ c1, set_object k v c = Normal c1
         ∧ get_object k c1 = Normal v
         ∧ ∃ c2, remove_object k c1 = Normal c2
                 ∧ get_object k c2 = Normal VNone)
  ∧ (∃ x, get_object k c = Normal x)
  ∧ (∃ c', remove_object k c = Normal c' ∧ objects c' = delete k (objects c))
  ∧ get_object k (set_objects (delete k (objects c)) c) = Normal VNone
  ∧ remove_object k (set_objects (delete k (objects c)) c)
    = Normal (set_objects (delete k (objects c)) c).
Proof.
  split; [|split; [|split; [|split]]].
  - eexists. split; [reflexivity|]. split.
    { unfold get_object. simpl. by rewrite lookup_insert_eq. }
    unfold remove_object, py_del. simpl. rewrite lookup_insert_eq.
    rewrite decide_True by (by eexists).
    eexists. split; [reflexivity|]. unfold get_object. simpl.
    by rewrite lookup_delete_eq.
  - by eexists.
  - unfold remove_object, py_del. destruct (objects c !! k) eqn:Hk.
    + rewrite decide_True by (by eexists). by eexists.
    + rewrite decide_False by (by intros [? ?]). exists c. split; [done|].
      by rewrite delete_id.
  - unfold get_object. simpl. by rewrite lookup_delete_eq.
  - unfold remove_object. simpl. rewrite lookup_delete_eq.
    by rewrite decide_False by (by intros [? ?]).
Qed.

End ObjectStore.

Section ReservedKey.
Context {Callback E : Type}.
Variable invoke : Callback → gmap string Value → @State Callback E
                  → Outcome Value * @State Callback E.

(** C9. [WorkflowStep.__init__] keeps the address of the caller's
    mapping and removes [max_retries] from that very object. So the main
    operation is never called with a [max_retries] argument, the
    parameter copy that starts the metadata record has no such key, and
    a second step constructed from the same mapping finds the key gone
    and gets [max_retries = 0]. *)
Theorem max_retries_popped_in_place (nm : string) (main : @MainFunc Callback E)
    (l : loc) (sid : string) pre pre_params post post_params
    (h : gmap loc (gmap string Value))
    (s : @State Callback E) (tr : list (@Call Callback)) :
  let r := WorkflowStep_init nm main l sid pre pre_params post post_params h in
  let self := r.1 in
  let h' := r.2 in
  main_params self = l
  ∧ max_retries self = default (VInt 0) (default ∅ (h !! l) !! "max_retries")
  ∧ h' !! l = delete "max_retries" <$> h !! l
  ∧ (∀ l', l' ≠ l → h' !! l' = h !! l')
  ∧ (∃ t, trace (WorkflowStep_run invoke self (mkWorld s h' tr)).2 = tr ++ t
          ∧ Forall no_max_retries_arg t)
  ∧ initial_metadata self (default ∅ (h' !! l)) !! "max_retries" = None
  ∧ (∀ nm2 (main2 : @MainFunc Callback E) sid2 pre2 pre_params2 post2 post_params2,
       let r2 := WorkflowStep_init nm2 main2 l sid2 pre2 pre_params2 post2 post_params2 h' in
       main_params r2.1 = l ∧ max_retries r2.1 = VInt 0 ∧ r2.2 = h').
Proof.
  intros r self h'.
  assert (Hl : h' !! l = delete "max_retries" <$> h !! l).
  { unfold h', r, WorkflowStep_init. simpl. by rewrite lookup_alter_eq. }
  assert (Hnone : default ∅ (h' !! l) !! "max_retries" = None).
  { rewrite Hl. destruct (h !! l); simpl; [by rewrite lookup_delete_eq|done]. }
  split; [done|]. split; [done|]. split; [done|]. split.
  { intros l' Hne. unfold h', r, WorkflowStep_init. simpl.
    by rewrite lookup_alter_ne. }
  split.
  { destruct (extends_WorkflowStep_run invoke h' no_max_retries_arg
                (λ _ _, I) (λ _ _, I) (λ _ _ _, I) (λ _ _, I) self (λ _, Hnone)
                (mkWorld s h' tr) eq_refl) as (t & Ht & _ & HQ).
    by exists t. }
  split.
  { unfold initial_metadata. apply lookup_union_None. split; [exact Hnone|].
    by rewrite lookup_singleton_ne. }
  intros. unfold r2, WorkflowStep_init. simpl. split; [done|]. split.
  { by rewrite Hnone. }
  apply map_eq. intros l'. destruct (decide (l' = l)) as [->|Hne].
  - rewrite lookup_alter_eq, Hl. destruct (h !! l); simpl; [|done].
    by rewrite delete_delete_eq.
  - by rewrite lookup_alter_ne.
Qed.

End ReservedKey.

(** ** The example callables meet the hypotheses of the properties *)

(** * Further properties of the engine *)

(** ** The results map of a context *)

Section Results.
Context {Callback : Type}.
Implicit Types c : @WorkflowContext Callback.



End Results.

(** ** The loop of [Workflow.run] at its bounds *)

Section Indexing.
Context {A : Type}.
Implicit Types l : list A.

Lemma py_index_below l i :
  i < - Z.of_nat (length l) → py_index l i = Raise IndexError.
Proof.
  intros H. unfold py_index. cbn zeta.
  destruct (decide (0 ≤ i)); [lia|]. by destruct (decide (0 ≤ _)); [lia|].
Qed.

Lemma py_index_wraps l i :
  - Z.of_nat (length l) ≤ i < 0 → py_index l i = py_index l (Z.of_nat (length l) + i).
Proof.
  intros H. unfold py_index. cbn zeta.
  destruct (decide (0 ≤ i)); [lia|].
  destruct (decide (0 ≤ Z.of_nat (length l) + i)); [|lia].
  destruct (decide (0 ≤ Z.of_nat (length l) + i)); [|lia]. done.
Qed.

Lemma py_index_Normal l i x :
  py_index l i = Normal x → - Z.of_nat (length l) ≤ i < Z.of_nat (length l).
Proof.
  unfold py_index. cbn zeta. intros H.
  destruct (decide (0 ≤ i)).
  - destruct (decide (0 ≤ i)); [|lia].
    destruct (l !! Z.to_nat i) eqn:Hl; [|done].
    apply lookup_lt_Some in Hl. lia.
  - destruct (decide (0 ≤ Z.of_nat (length l) + i)); [|done]. lia.
Qed.

Lemma py_index_defined l i :
  - Z.of_nat (length l) ≤ i < Z.of_nat (length l) → ∃ x, py_index l i = Normal x.
Proof.
  intros H. destruct (decide (0 ≤ i)).
  - destruct (py_index_in_range l i) as (x & _ & Hx); [lia|]. by exists x.
  - rewrite py_index_wraps by lia.
    destruct (py_index_in_range l (Z.of_nat (length l) + i)) as (x & _ & Hx); [lia|].
    by exists x.
Qed.

End Indexing.

Section Bounds.
Context {Callback E : Type}.
Variable invoke : Callback → gmap string Value → @State Callback E
                  → Outcome Value * @State Callback E.
Implicit Types steps : list (@WorkflowStep Callback E).
Implicit Types w : @World Callback E.

Lemma run_loop_first_stopped steps i rest w :
  should_stop (context (st w)) = true →
  - Z.of_nat (length steps) ≤ i < Z.of_nat (length steps) →
  run_loop invoke steps (i :: rest) w = (Normal tt, w).
Proof.
  intros Hstop Hi. destruct (py_index_defined steps i Hi) as [x Hx].
  rewrite run_loop_cons. unfold bind at 1, lift. rewrite Hx.
  unfold bind at 1, get_context. simpl. by rewrite Hstop.
Qed.

Lemma Workflow_run_finished steps w :
  Z.of_nat (length steps) ≤ current_step_index (context (st w)) →
  Workflow_run invoke steps w = (Normal tt, w).
Proof. intros H. rewrite Workflow_run_eq. by rewrite py_range_nil. Qed.

Lemma Workflow_run_stopped steps w :
  should_stop (context (st w)) = true →
  - Z.of_nat (length steps) ≤ current_step_index (context (st w)) →
  Workflow_run invoke steps w = (Normal tt, w).
Proof.
  intros Hstop H.
  destruct (decide (Z.of_nat (length steps) ≤ current_step_index (context (st w)))).
  { by apply Workflow_run_finished. }
  rewrite Workflow_run_eq, py_range_cons by lia.
  apply run_loop_first_stopped; [done|]. lia.
Qed.


Lemma run_loop_rerun steps (m : nat) a w w' :
  Z.of_nat (length steps) - a ≤ Z.of_nat m →
  current_step_index (context (st w)) = a →
  run_loop invoke steps (py_range a (Z.of_nat (length steps))) w = (Normal tt, w') →
  Z.of_nat (length steps) ≤ current_step_index (context (st w'))
  ∨ (should_stop (context (st w')) = true
     ∧ - Z.of_nat (length steps) ≤ current_step_index (context (st w'))).
Proof.
  set (n := Z.of_nat (length steps)).
  revert a w. induction m as [|m IH]; intros a w Hm Hc Hrun.
  - rewrite py_range_nil in Hrun by lia. injection Hrun as <-. left. lia.
  - destruct (decide (n ≤ a)).
    { rewrite py_range_nil in Hrun by lia. injection Hrun as <-. left. lia. }
    rewrite py_range_cons in Hrun by lia. rewrite run_loop_cons in Hrun.
    unfold bind at 1, lift in Hrun.
    destruct (py_index steps a) as [step|e] eqn:Hidx; [|done].
    apply py_index_Normal in Hidx. fold n in Hidx.
    unfold bind at 1, get_context in Hrun. simpl in Hrun.
    destruct (should_stop (context (st w))) eqn:Hstop.
    { injection Hrun as <-. right. split; [done|]. lia. }
    unfold bind at 1, log in Hrun. simpl in Hrun. unfold bind at 1 in Hrun.
    destruct (WorkflowStep_run invoke step _) as [[v|e] w1]; [|done].
    unfold bind at 1, modify_context in Hrun. simpl in Hrun.
    apply IH in Hrun; [|lia|done].
    destruct Hrun as [H|[H1 H2]]; [by left|by right].
Qed.


Lemma prefix_py_range (l : list Z) a b :
  l `prefix_of` py_range a b → l = py_range a (a + Z.of_nat (length l)).
Proof.
  intros [k Hk].
  assert (length l ≤ Z.to_nat (b - a))%nat as Hlen.
  { rewrite <- length_py_range, Hk, length_app. lia. }
  destruct (decide (b ≤ a)).
  { destruct l; [|simpl in Hlen; lia]. by rewrite py_range_nil by (simpl; lia). }
  rewrite (py_range_app a (a + Z.of_nat (length l)) b) in Hk by lia.
  apply app_inj_1 in Hk; [by destruct Hk|].
  rewrite length_py_range. lia.
Qed.

Lemma last_py_range a b : a < b → last (py_range a b) = Some (b - 1).
Proof.
  intros H. replace b with ((b - 1) + 1) at 1 by lia.
  rewrite py_range_snoc by lia. by rewrite last_snoc.
Qed.

Lemma run_loop_cursor steps indices w w' :
  run_loop invoke steps indices w = (Normal tt, w') →
  ∃ t, trace w' = trace w ++ t
       ∧ match last (step_runs t) with
         | Some i => current_step_index (context (st w')) = i + 1
         | None => w' = w
         end.
Proof.
  revert w. induction indices as [|i rest IH]; intros w Hrun.
  - injection Hrun as <-. exists []. by rewrite app_nil_r.
  - rewrite run_loop_cons in Hrun. unfold bind at 1, lift in Hrun.
    destruct (py_index steps i) as [step|e]; [|done].
    unfold bind at 1, get_context in Hrun. simpl in Hrun.
    destruct (should_stop (context (st w))).
    { injection Hrun as <-. exists []. by rewrite app_nil_r. }
    unfold bind at 1, log in Hrun. simpl in Hrun. unfold bind at 1 in Hrun.
    destruct (WorkflowStep_run invoke step _) as [[v|e] w1] eqn:Hstep; [|done].
    destruct (WorkflowStep_run_no_RunStep _ _ _ _ _ Hstep) as (t1 & Ht1 & Hr1).
    unfold bind at 1, modify_context in Hrun. simpl in Hrun.
    destruct (IH _ Hrun) as (t2 & Ht2 & Hlast).
    exists (RunStep i :: t1 ++ t2). split.
    { rewrite Ht2. simpl. rewrite Ht1. simpl. by rewrite <- !app_assoc. }
    change (step_runs (RunStep i :: t1 ++ t2)) with (i :: step_runs (t1 ++ t2)).
    rewrite step_runs_app, Hr1. simpl.
    destruct (step_runs t2) as [|j l] eqn:Hruns2.
    + simpl in Hlast. by rewrite Hlast.
    + rewrite last_cons. destruct (last (j :: l)) eqn:Hl; [done|].
      by apply last_None in Hl.
Qed.


End Bounds.

(** ** Stop requests made by hooks *)

Section HookStops.
Context {Callback E : Type}.
Variable invoke : Callback → gmap string Value → @State Callback E
                  → Outcome Value * @State Callback E.
Implicit Types self : @WorkflowStep Callback E.
Implicit Types w : @World Callback E.

Lemma hook_calls_hook_trace self ph n :
  hook_calls (hook_trace (Callback := Callback) self ph n)
  = (λ j, (ph, step_id self, j)) <$> seq 0 n.
Proof.
  unfold hook_calls, hook_trace. generalize 0%nat.
  induction n as [|n IH]; intros k; simpl; [done|]. by rewrite IH.
Qed.

Lemma main_calls_nil (t : list (@Call Callback)) :
  main_outcomes t = [] → main_calls t = [].
Proof. unfold main_outcomes. apply fmap_nil_inv. Qed.

Lemma run_hooks_stops ph key self params oks f rest k md l w :
  Forall (hook_ok keeps_flag params) oks →
  hook_stops params f →
  should_stop (context (st w)) = false →
  key ∈ reserved_keys →
  md !! key = Some (VList l) →
  ∃ w', run_hooks ph key self params (oks ++ f :: rest) k md w = (Normal None, w')
        ∧ should_stop (context (st w')) = true ∧ heap w' = heap w
        ∧ trace w' = trace w
            ++ ((λ j, CallHook ph (step_id self) j) <$> seq k (S (length oks))).
Proof.
  intros Hoks Hf. revert k md l w.
  induction Hoks as [|g oks Hg _ IH]; intros k md l w Hstop Hkey Hmd; simpl.
  - destruct (Hf md (st w)) as (v & md' & s' & Hcall & Hs & Hkeep).
    unfold bind at 1, log; simpl. unfold bind at 1, call; simpl. rewrite Hcall.
    unfold bind at 1, lift; simpl.
    unfold py_append. rewrite (Hkeep key Hkey), Hmd.
    unfold bind at 1, lift; simpl. unfold bind at 1, get_context; simpl.
    rewrite Hs. by eexists.
  - destruct (Hg md (st w)) as (v & md1 & s1 & Hcall & HR & Hkeep).
    unfold bind at 1, log; simpl. unfold bind at 1, call; simpl. rewrite Hcall.
    unfold bind at 1, lift; simpl.
    unfold py_append. rewrite (Hkeep key Hkey), Hmd.
    unfold bind at 1, lift; simpl. unfold bind at 1, get_context; simpl.
    unfold keeps_flag in HR. rewrite HR, Hstop.
    match goal with |- context [run_hooks _ _ _ _ _ _ ?md2 ?w1] =>
      destruct (IH (S k) md2 (l ++ [v]) w1) as (w' & Hrun & Hs & Hh & Ht) end.
    { simpl. congruence. }
    { done. }
    { by rewrite lookup_insert_eq. }
    exists w'. split; [done|]. split; [done|]. split; [done|].
    rewrite Ht. simpl. by rewrite <- app_assoc.
Qed.

Lemma pre_hook_stop self oks f rest w :
  should_stop (context (st w)) = false →
  listeners_ok invoke keeps_flag →
  pre_funcs self = oks ++ f :: rest →
  Forall (hook_ok keeps_flag (pre_params self)) oks →
  hook_stops (pre_params self) f →
  ∃ w',
    WorkflowStep_run invoke self w = (Normal VNone, w')
    ∧ should_stop (context (st w')) = true
    ∧ trace w' = trace w
        ++ emission (subscribed "progress" (st w)) "progress" (started_payload self)
        ++ hook_trace self Pre (S (length oks)).
Proof.
  intros Hstop Hlisteners Hpre Hoks Hf. unfold WorkflowStep_run.
  unfold bind at 1, get_context. simpl. rewrite Hstop.
  unfold bind at 1, read_mapping. simpl. unfold bind at 1.
  destruct (emit_event_ok invoke keeps_flag Hlisteners "progress" (started_payload self) w)
    as (w1 & -> & HR1 & Hh1 & Ht1). unfold bind at 1. rewrite Hpre.
  match goal with |- context [run_hooks Pre ?key self ?p _ 0 ?md w1] =>
    destruct (run_hooks_stops Pre key self p oks f rest 0 md [] w1 Hoks Hf)
      as (w2 & -> & Hs2 & Hh2 & Ht2) end.
  { unfold keeps_flag in HR1. congruence. }
  { in_list. }
  { by rewrite lookup_insert_eq. }
  change (trace w2 = trace w1 ++ hook_trace self Pre (S (length oks))) in Ht2.
  exists w2. split; [done|]. split; [done|]. by rewrite Ht2, Ht1, <- app_assoc.
Qed.




End HookStops.

(** ** Exceptions of listeners *)

Section ListenerExceptions.
Context {Callback E : Type}.
Variable invoke : Callback → gmap string Value → @State Callback E
                  → Outcome Value * @State Callback E.
Implicit Types w : @World Callback E.

Lemma deliver_raises oks cb rest p e w :
  Forall (λ cb', ∀ s, ∃ v s', invoke cb' p s = (Normal v, s')) oks →
  (∀ s, ∃ s', invoke cb p s = (Raise e, s')) →
  ∃ w', deliver invoke (oks ++ cb :: rest) p w = (Raise e, w')
        ∧ heap w' = heap w
        ∧ trace w' = trace w ++ ((λ c, Deliver c p) <$> oks ++ [cb]).
Proof.
  intros Hoks Hcb. revert w. induction Hoks as [|g oks Hg _ IH]; intros w; simpl.
  - destruct (Hcb (st w)) as (s' & Hi).
    unfold bind at 1, log; simpl. unfold bind at 1, call; simpl. rewrite Hi.
    unfold bind at 1, lift; simpl. by eexists.
  - destruct (Hg (st w)) as (v & s' & Hi).
    unfold bind at 1, log; simpl. unfold bind at 1, call; simpl. rewrite Hi.
    unfold bind at 1, lift; simpl.
    destruct (IH (mkWorld s' (heap w) (trace w ++ [Deliver g p])))
      as (w' & Hd & Hh & Ht).
    exists w'. split; [done|]. split; [done|].
    rewrite Ht. simpl. by rewrite <- app_assoc.
Qed.

Lemma emit_event_raises n p oks cb rest e w :
  subscribed n (st w) = oks ++ cb :: rest →
  Forall (λ cb', ∀ s, ∃ v s', invoke cb' p s = (Normal v, s')) oks →
  (∀ s, ∃ s', invoke cb p s = (Raise e, s')) →
  ∃ w', emit_event invoke n p w = (Raise e, w')
        ∧ heap w' = heap w
        ∧ trace w' = trace w ++ emission (oks ++ [cb]) n p.
Proof.
  intros Hsub Hoks Hcb. unfold emit_event, bind at 1, get_context; simpl.
  unfold bind at 1, log; simpl.
  unfold subscribed in Hsub. rewrite Hsub.
  destruct (deliver_raises oks cb rest p e
              (mkWorld (st w) (heap w) (trace w ++ [Emit n p])) Hoks Hcb)
    as (w' & Hd & Hh & Ht).
  exists w'. split; [done|]. split; [done|].
  rewrite Ht. simpl. unfold emission. by rewrite <- app_assoc.
Qed.



End ListenerExceptions.

(** ** A retry budget that is not a number *)

Section Budget.
Context {Callback E : Type}.
Variable invoke : Callback → gmap string Value → @State Callback E
                  → Outcome Value * @State Callback E.


End Budget.

(** ** Delivery over the list object and over its snapshot *)

Section LiveDeliveryFacts.
Context {Callback E : Type}.
Variable invoke : Callback → gmap string Value → @State Callback E
                  → Outcome Value * @State Callback E.
Implicit Types w : @World Callback E.

Lemma deliver_live_agrees n p (done rest : list Callback) fuel w :
  (∀ cb s, cb ∈ rest → subscribed n (invoke cb p s).2 = subscribed n s) →
  subscribed n (st w) = done ++ rest →
  (length rest < fuel)%nat →
  deliver_live invoke fuel n (length done) p w = Some (deliver invoke rest p w).
Proof.
  revert done fuel w. induction rest as [|cb rest IH]; intros done fuel w Hkeep Hsub Hfuel.
  - destruct fuel as [|fuel]; [simpl in Hfuel; lia|]. simpl.
    rewrite Hsub, app_nil_r. by rewrite lookup_ge_None_2.
  - destruct fuel as [|fuel]; [simpl in Hfuel; lia|]. simpl.
    rewrite Hsub. rewrite lookup_app_r, Nat.sub_diag by lia. simpl.
    unfold bind at 1, log; simpl. unfold bind at 1, call; simpl.
    destruct (invoke cb p (st w)) as [[v|e] s'] eqn:Hi; simpl.
    + unfold bind at 1, lift; simpl.
      replace (S (length done)) with (length (done ++ [cb]))
        by (rewrite length_app; simpl; lia).
      apply IH.
      * intros cb' s Hin. apply Hkeep. by apply elem_of_cons; right.
      * simpl. pose proof (Hkeep cb (st w)) as H. rewrite Hi in H. simpl in H.
        rewrite H by (apply elem_of_cons; by left).
        by rewrite Hsub, <- app_assoc.
      * simpl in Hfuel. lia.
    + by unfold bind at 1, lift; simpl.
Qed.


Lemma deliver_live_never_ends n p fuel i w :
  (∀ cb s, ∃ v s', invoke cb p s = (Normal v, s')
                   ∧ (length (subscribed n s) < length (subscribed n s'))%nat) →
  (i < length (subscribed n (st w)))%nat →
  deliver_live invoke fuel n i p w = None.
Proof.
  intros Hgrow. revert i w. induction fuel as [|fuel IH]; intros i w Hi; [done|].
  simpl. destruct (lookup_lt_is_Some_2 _ _ Hi) as [cb ->].
  destruct (Hgrow cb (st w)) as (v & s' & Hinv & Hlen). rewrite Hinv. simpl.
  apply IH. simpl. lia.
Qed.


End LiveDeliveryFacts.

Module DemoFacts.
Import Demo.



Lemma timed_moves_eq : timed_moves = ([step_a; step_c], mappings).
Proof. reflexivity. Qed.

Lemma broken_workflow_eq : broken_workflow = ([step_broken], mappings).
Proof. reflexivity. Qed.

Lemma timed_workflow_eq : timed_workflow = ([step_a; step_b; step_c], popped).
Proof. reflexivity. Qed.

Lemma flaky_workflow_eq : flaky_workflow = ([step_flaky; step_c], popped).
Proof. reflexivity. Qed.

Lemma print_listener_ok (R : relation DState) `{!Reflexive R} :
  listeners_ok print_listener R.
Proof. intros cb p s. by exists VNone, s. Qed.

Lemma stop_on_retry_keeps_data : listeners_ok stop_on_retry keeps_data.
Proof.
  intros cb p s. unfold stop_on_retry.
  destruct (bool_decide (cb = 1%nat) && is_retrying p); by eexists _, _.
Qed.

Lemma stop_on_retry_ok : listeners_ok stop_on_retry anything.
Proof.
  intros cb p s. unfold stop_on_retry.
  destruct (bool_decide (cb = 1%nat) && is_retrying p); by eexists _, _.
Qed.

Lemma merged_params_empty : merged_params ∅ = ∅.
Proof. unfold merged_params. by rewrite !delete_empty. Qed.

Lemma autofocus_ok (R : relation DState) `{!Reflexive R} :
  hook_ok R ∅ autofocus.
Proof.
  intros md s. rewrite merged_params_empty.
  exists VNone, (<["autofocus_done" := VBool true]> md), s.
  split; [done|]. split; [done|]. intros k Hk.
  rewrite lookup_insert_ne; [done|]. intros <-.
  unfold reserved_keys in Hk. set_solver.
Qed.

Lemma wait_time_ok (R : relation DState) `{!Reflexive R} :
  hook_ok R {["seconds" := VInt 1]} wait_time.
Proof.
  intros md s. exists VNone, (<["waited" := VInt 1]> md), s.
  split; [done|]. split; [done|]. intros k Hk.
  rewrite lookup_insert_ne; [done|]. intros <-.
  unfold reserved_keys in Hk. set_solver.
Qed.

Lemma move_stage_framed (R : relation DState) `{!Reflexive R} kw :
  main_framed R move_stage kw.
Proof.
  intros s. unfold move_stage.
  destruct (kw !! "x"), (kw !! "y"); try done. by case_decide.
Qed.

Lemma faulty_device_framed (R : relation DState) `{!Reflexive R} kw :
  main_framed R faulty_device kw.
Proof. intros s. done. Qed.

Lemma flaky_acquire_quiet kw : main_framed quiet flaky_acquire kw.
Proof. intros s. unfold flaky_acquire. by destruct (ext s). Qed.

Lemma flaky_acquire_keeps_flag kw : main_framed keeps_flag flaky_acquire kw.
Proof. intros s. unfold flaky_acquire. by destruct (ext s). Qed.

Lemma stop_hook_stops : hook_stops ∅ stop_hook.
Proof.
  intros md s. rewrite merged_params_empty.
  by exists VNone, md, (mkState (request_stop (context s)) (ext s)).
Qed.

Lemma step_a_ok h :
  h !! 1%positive = Some (position 0 0 0) →
  step_ok h step_a ∧ main_never_fails h step_a.
Proof.
  intros Hh. unfold main_never_fails, step_ok, bound_params. simpl. rewrite Hh.
  split; [split; [|split; [|split]]|].
  - repeat constructor. apply autofocus_ok. apply _.
  - repeat constructor. apply wait_time_ok. apply _.
  - apply move_stage_framed. apply _.
  - intros H. done.
  - intros s. by eexists _, _.
Qed.

Lemma step_c_ok h :
  h !! 3%positive = Some (position 0 0 5) →
  step_ok h step_c ∧ main_never_fails h step_c.
Proof.
  intros Hh. unfold main_never_fails, step_ok, bound_params. simpl. rewrite Hh.
  split; [split; [|split; [|split]]|].
  - constructor.
  - constructor.
  - apply move_stage_framed. apply _.
  - intros H. done.
  - intros s. by eexists _, _.
Qed.

Lemma step_b_fails : main_always_fails popped step_b.
Proof. intros s. by eexists _, _. Qed.

End DemoFacts.

(** ** The properties at work on the example workflows *)

Module Examples.
Import Demo DemoFacts.

Ltac distinct :=
  clear; repeat (apply NoDup_cons_2; [set_solver|]); apply NoDup_nil_2.

(** The amended C1 on [timed_workflow]: "Move XY" completes, the device
    of step 1 fails twice, "Move Z" is never started. *)
Lemma run_until_failure_witness :
  timed_workflow.1 !! 1%nat = Some step_b
  ∧ fresh_context listening
  ∧ ∃ w', Workflow_run print_listener timed_workflow.1
            (world listening timed_workflow.2) = (Normal tt, w')
          ∧ should_stop (context (st w')) = true
          ∧ current_step_index (context (st w')) = 2
          ∧ size (data (context (st w'))) = 2%nat
          ∧ step_runs (trace w') = [0; 1].
Proof.
  split; [reflexivity|]. split; [by repeat split|].
  destruct (run_until_failure print_listener (print_listener_ok _)
              timed_workflow.1 1 step_b (world listening timed_workflow.2))
    as (w' & t & md & Hrun & Hstop & Hcur & Hdom & Hsize & Ht & Hruns & _).
  - reflexivity.
  - rewrite timed_workflow_eq. simpl.
    constructor; [by apply step_a_ok|constructor].
  - constructor.
  - apply faulty_device_framed. apply _.
  - by eexists.
  - rewrite timed_workflow_eq. apply step_b_fails.
  - by repeat split.
  - exists w'. split; [exact Hrun|]. split; [exact Hstop|]. split; [exact Hcur|].
    split; [apply Hsize; change (NoDup ["a"; "b"]); distinct|].
    rewrite Ht. exact Hruns.
Defined.

(** The amended C7 on the two moves of [timed_moves]. *)
Lemma run_all_steps_witness :
  fresh_context listening
  ∧ ∃ w', Workflow_run print_listener timed_moves.1
            (world listening timed_moves.2) = (Normal tt, w')
          ∧ current_step_index (context (st w')) = 2
          ∧ should_stop (context (st w')) = false
          ∧ size (data (context (st w'))) = 2%nat.
Proof.
  split; [by repeat split|].
  destruct (run_all_steps print_listener (print_listener_ok _)
              timed_moves.1 (world listening timed_moves.2))
    as (w' & Hrun & Hcur & Hstop & Hdom & Hsize).
  - rewrite timed_moves_eq. simpl.
    constructor; [by apply step_a_ok|]. constructor; [by apply step_c_ok|constructor].
  - by repeat split.
  - exists w'. split; [exact Hrun|]. split; [exact Hcur|]. split; [exact Hstop|].
    apply Hsize. change (NoDup ["a"; "c"]). distinct.
Defined.

(** The amended C2 with [max_retries = 2]: three calls of the main
    operation, and the record is in the results. *)
Lemma retry_count_witness :
  mappings !! 4%positive
  = Some (<["max_retries" := VInt 2]> (<["channel" := VStr "GFP"]> ∅))
  ∧ ∃ w' t md e,
      WorkflowStep_run print_listener
        (WorkflowStep_init "Acquire" faulty_device 4%positive "b"
           (Some [autofocus]) None None None mappings).1
        (world listening
           (WorkflowStep_init "Acquire" faulty_device 4%positive "b"
              (Some [autofocus]) None None None mappings).2)
      = (Normal VNone, w')
      ∧ trace w' = [] ++ t
      ∧ Z.of_nat (length (main_calls t)) = Z.max 2 0 + 1
      ∧ last (main_outcomes t) = Some (Raise e)
      ∧ should_stop (context (st w')) = true
      ∧ get_step_result "b" (context (st w')) = Some md
      ∧ md !! "error" = Some (VStr (exc_str e)).
Proof.
  split; [reflexivity|].
  destruct (retry_count print_listener "Acquire" faulty_device 4%positive "b"
              (Some [autofocus]) None None None mappings
              (<["max_retries" := VInt 2]> (<["channel" := VStr "GFP"]> ∅)) 2
              (world listening
                 (WorkflowStep_init "Acquire" faulty_device 4%positive "b"
                    (Some [autofocus]) None None None mappings).2))
    as (w' & t & md & e & Hrun & Ht & Hcalls & Hall & Hlast & Hstop & _ & Hget & Herr & _).
  - reflexivity.
  - reflexivity.
  - reflexivity.
  - intros s. by eexists _, _.
  - reflexivity.
  - apply print_listener_ok. apply _.
  - constructor; [|constructor]. apply autofocus_ok. apply _.
  - exists w', t, md, e. split; [exact Hrun|]. split; [exact Ht|].
    split; [exact Hcalls|]. split; [exact Hlast|]. split; [exact Hstop|].
    split; [exact Hget|exact Herr].
Defined.

(** The amended C3 on the step that fails once: one record is stored. *)
Lemma error_fields_persist_witness :
  should_stop (context (st (world listening popped))) = false
  ∧ ∃ o w' t md,
      WorkflowStep_run print_listener step_flaky (world listening popped) = (o, w')
      ∧ trace w' = [] ++ t
      ∧ stores t = [("a", md)].
Proof.
  split; [reflexivity|].
  destruct (error_fields_persist print_listener step_flaky (world listening popped))
    as (o & w' & t & md & errs & final & Hrun & Ht & Hstores & _).
  - reflexivity.
  - apply print_listener_ok. apply _.
  - constructor.
  - constructor.
  - apply flaky_acquire_keeps_flag.
  - intros H. discriminate H.
  - exists o, w', t, md. split; [exact Hrun|]. split; [exact Ht|exact Hstores].
Defined.

(** C5 on the step that fails once. *)
Lemma event_order_witness :
  should_stop (context (st (world listening popped))) = false
  ∧ ∃ o w' t errs final,
      WorkflowStep_run print_listener step_flaky (world listening popped) = (o, w')
      ∧ trace w' = [] ++ t
      ∧ main_outcomes t = (Raise <$> errs) ++ [final]
      ∧ statuses t
        = [Some (VStr "started")]
          ++ replicate (length errs) (Some (VStr "retrying"))
          ++ [Some (VStr (if is_normal final then "completed" else "failed"))]
      ∧ notifications t
        = flat_map (λ np, emission [0%nat; 1%nat] np.1 np.2) (emitted t).
Proof.
  split; [reflexivity|].
  destruct (event_order print_listener step_flaky (world listening popped))
    as (o & w' & t & errs & final & Hrun & Ht & Hmo & Hst & _ & Hn & _).
  - reflexivity.
  - apply print_listener_ok. apply _.
  - constructor.
  - constructor.
  - apply flaky_acquire_quiet.
  - intros H. discriminate H.
  - exists o, w', t, errs, final. split; [exact Hrun|]. split; [exact Ht|].
    split; [exact Hmo|]. split; [exact Hst|exact Hn].
Defined.

(** C10 on the step that fails once while listener 1 requests a stop at
    the retry. *)
Lemma stop_flag_not_read_witness :
  post_funcs step_flaky = []
  ∧ py_int (max_retries step_flaky) = Some 1
  ∧ ∃ o w' t md',
      run_from_main stop_on_retry step_flaky ∅ (world listening popped) = (o, w')
      ∧ trace w' = [] ++ t
      ∧ stores t = [("a", md')]
      ∧ get_step_result "a" (context (st w')) = Some md'.
Proof.
  split; [reflexivity|]. split; [reflexivity|].
  destruct (stop_flag_not_read_in_main_phase stop_on_retry step_flaky ∅ 1
              (world listening popped))
    as (o & w' & t & md' & errs & final & Hrun & Ht & _ & Hstores & Hget & _).
  - reflexivity.
  - reflexivity.
  - apply stop_on_retry_ok.
  - exists o, w', t, md'. split; [exact Hrun|]. split; [exact Ht|].
    split; [exact Hstores|]. apply Hget. apply stop_on_retry_keeps_data.
Defined.

(** C4 on [timed_workflow], whose second step raises at every attempt,
    on a step whose second pre-hook raises, and on a workflow that
    reaches such a step after a step that completes. *)
Lemma exception_boundary_witness :
  (∃ w', Workflow_run print_listener timed_workflow.1
           (world listening timed_workflow.2) = (Normal tt, w'))
  ∧ (∃ w' t,
       Workflow_run print_listener timed_workflow.1
         (world listening timed_workflow.2) = (Normal tt, w')
       ∧ trace w' = [] ++ t
       ∧ match last (main_outcomes t) with
         | Some (Raise e) =>
             should_stop (context (st w')) = true
             ∧ ∃ i self md,
                 last (step_runs t) = Some i
                 ∧ timed_workflow.1 !! Z.to_nat i = Some self
                 ∧ get_step_result (step_id self) (context (st w')) = Some md
                 ∧ md !! "error" = Some (VStr (exc_str e))
                 ∧ md !! "traceback" = Some (VStr (exc_traceback e))
                 ∧ last (emitted t) = Some ("progress", failed_payload self)
         | _ => should_stop (context (st w')) = false
         end)
  ∧ (∃ w', WorkflowStep_run print_listener step_broken
             (world listening mappings) = (Raise hook_error, w'))
  ∧ (∃ w', Workflow_run print_listener late_broken_workflow.1
             (world listening late_broken_workflow.2) = (Raise hook_error, w')).
Proof.
  destruct (exception_boundary print_listener) as (HA & HB & HC & _ & HE).
  assert (Hauto : ∀ R : relation DState, Reflexive R → hook_ok R ∅ autofocus).
  { intros R HR. by apply autofocus_ok. }
  assert (Hwait : ∀ R : relation DState, Reflexive R →
            hook_ok R {["seconds" := VInt 1]} wait_time).
  { intros R HR. by apply wait_time_ok. }
  split; [|split; [|split]].
  - apply HA.
    + apply print_listener_ok. apply _.
    + rewrite timed_workflow_eq. simpl.
      constructor; [|constructor; [|constructor; [|constructor]]].
      * split; [|split].
        -- constructor; [|constructor]. apply Hauto. apply _.
        -- constructor; [|constructor]. apply Hwait. apply _.
        -- intros H. done.
      * split; [constructor|]. split; [constructor|]. intros H. done.
      * split; [constructor|]. split; [constructor|]. intros H. done.
    + done.
  - apply HB.
    + apply print_listener_ok. apply _.
    + rewrite timed_workflow_eq. simpl.
      constructor; [|constructor; [|constructor; [|constructor]]].
      * split; [|split; [|split]].
        -- constructor; [|constructor]. apply Hauto. apply _.
        -- constructor; [|constructor]. apply Hwait. apply _.
        -- apply move_stage_framed. apply _.
        -- intros H. done.
      * split; [constructor|]. split; [constructor|].
        split; [apply faulty_device_framed; apply _|]. intros H. done.
      * split; [constructor|]. split; [constructor|].
        split; [apply move_stage_framed; apply _|]. intros H. done.
    + reflexivity.
    + done.
  - apply (HC step_broken [autofocus] broken_hook []).
    + reflexivity.
    + apply print_listener_ok. apply _.
    + reflexivity.
    + constructor; [|constructor]. apply Hauto. apply _.
    + intros md s. by eexists _, _.
  - eexists.
    apply (HE late_broken_workflow.1 1%nat step_broken hook_error
             (world listening late_broken_workflow.2)
             (Workflow_run print_listener (take 1 late_broken_workflow.1)
                (world listening late_broken_workflow.2)).2).
    + simpl. lia.
    + reflexivity.
    + vm_compute. reflexivity.
    + vm_compute. reflexivity.
    + vm_compute. reflexivity.
Defined.

Ltac by_computation :=
  cbv zeta; repeat split; vm_compute; first [reflexivity | discriminate].

(** C1 fails on the tiled scan: steps 0 and 1 complete, step 2 uses up
    its retries, and the results hold four entries, not three: the
    post-hook has written under ["global"]. *)
Lemma scan_results_after_failure :
  let r := Workflow_run_opt print_listener scan_workflow.1 None 0%nat
             scan_workflow.2 in
  r.1 = Normal tt
  ∧ length scan_workflow.1 = 3%nat
  ∧ statuses (trace r.2)
    = Some <$> [VStr "started"; VStr "completed"; VStr "started"; VStr "completed";
                VStr "started"; VStr "retrying"; VStr "failed"]
  ∧ should_stop (context (st r.2)) = true
  ∧ current_step_index (context (st r.2)) = 3
  ∧ size (data (context (st r.2))) = 4%nat
  ∧ size (data (context (st r.2))) ≠ 3%nat
  ∧ elements (dom (data (context (st r.2)))) ≡ₚ ["0"; "1"; "2"; "global"].
Proof.
  cbv zeta. repeat split; try (vm_compute; first [reflexivity | discriminate]).
  vm_compute. apply (bool_decide_unpack _). vm_compute. reflexivity.
Qed.

(** C7 fails on the two moves of the tiled scan: no main operation fails,
    nobody requests a stop, and the results hold three entries for two
    steps. *)
Lemma scan_results_complete :
  let r := Workflow_run_opt print_listener scan_moves.1 None 0%nat
             scan_moves.2 in
  r.1 = Normal tt
  ∧ length scan_moves.1 = 2%nat
  ∧ forallb is_normal (main_outcomes (trace r.2)) = true
  ∧ should_stop (context (st r.2)) = false
  ∧ current_step_index (context (st r.2)) = 2
  ∧ size (data (context (st r.2))) = 3%nat
  ∧ size (data (context (st r.2))) ≠ length scan_moves.1.
Proof. by_computation. Qed.

(** C2 fails on a step whose mapping binds [max_retries] to [-1] and
    whose main operation raises on every call: the main operation is
    invoked once, not [R + 1 = 0] times. *)
Lemma negative_budget_single_call :
  let h : gmap loc (gmap string Value) :=
    {[1%positive := {["max_retries" := VInt (-1)]}]} in
  let made := WorkflowStep_init "Acquire" faulty_device 1%positive "b"
                None None None None h in
  let r := WorkflowStep_run print_listener made.1 (world listening made.2) in
  max_retries made.1 = VInt (-1)
  ∧ r.1 = Normal VNone
  ∧ main_outcomes (trace r.2) = [Raise device_error]
  ∧ Z.of_nat (length (main_calls (trace r.2))) = 1
  ∧ Z.of_nat (length (main_calls (trace r.2))) ≠ -1 + 1
  ∧ statuses (trace r.2) = Some <$> [VStr "started"; VStr "failed"].
Proof. by_computation. Qed.

(** C3 fails on the step that fails once and then succeeds: the run
    completes, and the record it stores has [error] and [traceback]
    next to [result]. *)
Lemma retried_step_keeps_error :
  let r := Workflow_run print_listener flaky_workflow.1
             (world listening flaky_workflow.2) in
  let fields := λ md : gmap string Value,
    (md !! "result", md !! "error", md !! "traceback") in
  r.1 = Normal tt
  ∧ take 3 (statuses (trace r.2))
    = Some <$> [VStr "started"; VStr "retrying"; VStr "completed"]
  ∧ should_stop (context (st r.2)) = false
  ∧ (λ x, (x.1, fields x.2)) <$> head (stores (trace r.2))
    = Some ("a", (Some (VObj 0), Some (VStr "device not responding"),
                  Some (VStr "Traceback (most recent call last)")))
  ∧ fields <$> get_step_result "a" (context (st r.2))
    = Some (Some (VObj 0), Some (VStr "device not responding"),
            Some (VStr "Traceback (most recent call last)"))
  ∧ (λ md : gmap string Value, md !! "error")
      <$> get_step_result "a" (context (st r.2)) ≠ Some None.
Proof. by_computation. Qed.

(** C5 fails on a step whose second pre-hook raises: nobody requests a
    stop, hooks and listeners emit nothing, and the step's events are
    [started] alone: the exception leaves [run] before [completed] or
    [failed] is emitted. *)
Lemma raising_hook_cuts_the_events :
  let w := world listening mappings in
  let r := WorkflowStep_run print_listener step_broken w in
  broken_workflow.1 = [step_broken]
  ∧ should_stop (context (st w)) = false
  ∧ r.1 = Raise hook_error
  ∧ should_stop (context (st r.2)) = false
  ∧ hook_calls (trace r.2) = [(Pre, "a", 0%nat); (Pre, "a", 1%nat)]
  ∧ main_calls (trace r.2) = []
  ∧ emitted (trace r.2) = [("progress", started_payload step_broken)]
  ∧ statuses (trace r.2) = [Some (VStr "started")]
  ∧ last (statuses (trace r.2)) ≠ Some (Some (VStr "completed"))
  ∧ last (statuses (trace r.2)) ≠ Some (Some (VStr "failed")).
Proof. by_computation. Qed.

(** C6 fails on [plain_workflow]: the cursor is 0 and the stop flag is
    clear, yet the step at index 2 is not invoked, because step 1 has
    failed. *)
Lemma failure_cuts_the_run_short :
  let w := world listening plain_workflow.2 in
  let r := Workflow_run print_listener plain_workflow.1 w in
  current_step_index (context (st w)) = 0
  ∧ should_stop (context (st w)) = false
  ∧ py_range 0 (Z.of_nat (length plain_workflow.1)) = [0; 1; 2]
  ∧ step_runs (trace r.2) = [0; 1]
  ∧ step_runs (trace r.2) ≠ py_range 0 (Z.of_nat (length plain_workflow.1)).
Proof. by_computation. Qed.

(** The scenario of C10 run as a whole: the stop requested at the retry
    does not keep the step from completing; "Move Z" is not started. *)
Lemma stop_at_retry_takes_effect_after_the_step :
  let r := Workflow_run stop_on_retry flaky_workflow.1
             (world listening flaky_workflow.2) in
  r.1 = Normal tt
  ∧ statuses (trace r.2)
    = Some <$> [VStr "started"; VStr "retrying"; VStr "completed"]
  ∧ length (main_calls (trace r.2)) = 2%nat
  ∧ should_stop (context (st r.2)) = true
  ∧ (λ md : gmap string Value, md !! "result")
      <$> get_step_result "a" (context (st r.2)) = Some (Some (VObj 0))
  ∧ step_runs (trace r.2) = [0]
  ∧ current_step_index (context (st r.2)) = 1.
Proof. by_computation. Qed.

End Examples.

(** ** The further properties on the examples *)

Module MoreExamples.
Import Demo DemoFacts.










(** Listener 0 subscribes listener 1 while [started] is delivered: the
    loop over the list object calls listener 1 in that same delivery,
    the delivery to the listeners found at emission does not. *)
Lemma subscription_during_delivery :
  let w := world (on "progress" 0%nat WorkflowContext_init) mappings in
  let p := started_payload step_c in
  (λ r, (r.1, notifications (trace r.2))) <$> emit_event_live recruiting 3 "progress" p w
  = Some (Normal tt, [Emit "progress" p; Deliver 0%nat p; Deliver 1%nat p])
  ∧ notifications (trace (emit_event recruiting "progress" p w).2)
    = [Emit "progress" p; Deliver 0%nat p].
Proof. cbv zeta. split; vm_compute; reflexivity. Qed.

End MoreExamples.
